(** * ungscreen-back: the candle relay of [src/main.py]

    A shallow embedding of the relay service: the Bybit callback that
    normalises kline ticks and appends them to [message_queue], the
    broadcast loop that drains the queue to the registered clients, the
    websocket endpoint that opens and closes the single upstream
    subscription, and the [/kline-history] endpoint.

    Python values are a small inductive type, a Python exception is the
    [Raise] case of a result type, and the three module-level globals
    ([active_bybit_ws], [message_queue], [clients]) are the fields of an
    explicit state record threaded through every handler. *)

From Stdlib Require Import ZArith QArith String Ascii List.
From Stdlib Require Import PrimFloat SpecFloat FloatOps FloatAxioms.
From stdpp Require Import base decidable option list gmap strings pretty.

Set Warnings "-register-all,-clear-no-such-hyp,-inexact-float".
Local Open Scope string_scope.
Local Open Scope list_scope.
Local Open Scope Z_scope.

(** ** Python exceptions and fallible computations *)

Inductive exn : Type :=
| KeyError (key : string)
| IndexError
| TypeError
| ValueError
| OverflowError
| AttributeError.

Inductive result (A : Type) : Type :=
| Ok (a : A)
| Raise (e : exn).
Arguments Ok {A} a.
Arguments Raise {A} e.

#[export] Instance result_ret : MRet result := fun _ a => Ok a.
#[export] Instance result_bind : MBind result := fun _ _ k r =>
  match r with
  | Ok a => k a
  | Raise e => Raise e
  end.

(** [for x in xs: body] where the body may raise: the results are
    collected in order and the first exception aborts the loop. *)
Fixpoint for_each {A B : Type} (body : A -> result B) (xs : list A)
  : result (list B) :=
  match xs with
  | [] => Ok []
  | x :: rest =>
      y ← body x;
      ys ← for_each body rest;
      Ok (y :: ys)
  end.

(** ** The arithmetic of Python's [float]

    The handlers only use [float(...)], [/], [+], [-], [*] and the
    ordering.  They are collected in an interface so that statements
    can be read at IEEE binary64 (the instance [binary64] below, which
    computes) and, where an order-theoretic law is needed, at any
    arithmetic that has it. *)

Class PyFloat : Type := {
  float : Type;
  (** [float(n)] for an [int] that fits *)
  float_of_Z : Z -> float;
  (** whether [float(n)] is representable (otherwise [OverflowError]) *)
  int_fits : Z -> bool;
  (** [float(s)] for a [str]; [None] stands for [ValueError] *)
  float_of_string : string -> option float;
  fadd : float -> float -> float;
  fsub : float -> float -> float;
  fmul : float -> float -> float;
  fdiv : float -> float -> float;
  fle : float -> float -> bool;
  (** [float("")] raises [ValueError] *)
  float_of_empty_string : float_of_string "" = None
}.

(** ** Python values, as [json.loads] delivers them *)

Inductive pyval `{PyFloat} : Type :=
| PNone
| PBool (b : bool)
| PInt (z : Z)
| PFloat (f : float)
| PStr (s : string)
| PList (items : list pyval)
| PDict (entries : list (string * pyval)).

Section Builtins.
Context `{PyFloat}.

(** [float(v)] *)
Definition py_float (v : pyval) : result float :=
  match v with
  | PFloat f => Ok f
  | PInt z => if int_fits z then Ok (float_of_Z z) else Raise OverflowError
  | PBool b => Ok (float_of_Z (if b then 1 else 0))
  | PStr s =>
      match float_of_string s with
      | Some f => Ok f
      | None => Raise ValueError
      end
  | PNone | PList _ | PDict _ => Raise TypeError
  end.

(** A [dict] is kept in insertion order; keys are unique. *)
Fixpoint dict_get (d : list (string * pyval)) (k : string) : option pyval :=
  match d with
  | [] => None
  | (k', v) :: rest => if String.eqb k' k then Some v else dict_get rest k
  end.

(** [d[k] = v] on a dict *)
Fixpoint dict_set (d : list (string * pyval)) (k : string) (v : pyval)
  : list (string * pyval) :=
  match d with
  | [] => [(k, v)]
  | (k', v') :: rest =>
      if String.eqb k' k then (k', v) :: rest else (k', v') :: dict_set rest k v
  end.

(** [v[k]] with a string key *)
Definition getitem (v : pyval) (k : string) : result pyval :=
  match v with
  | PDict d =>
      match dict_get d k with
      | Some x => Ok x
      | None => Raise (KeyError k)
      end
  | _ => Raise TypeError
  end.

Definition string_of_ascii (a : ascii) : string := String a EmptyString.

(** [v[i]] with a non-negative integer index *)
Definition getindex (v : pyval) (i : nat) : result pyval :=
  match v with
  | PList l =>
      match l !! i with
      | Some x => Ok x
      | None => Raise IndexError
      end
  | PStr s =>
      match String.get i s with
      | Some a => Ok (PStr (string_of_ascii a))
      | None => Raise IndexError
      end
  | PDict _ => Raise (KeyError (pretty i))
  | _ => Raise TypeError
  end.

(** the items visited by [for m in v] *)
Definition py_iter (v : pyval) : result (list pyval) :=
  match v with
  | PList l => Ok l
  | PStr s => Ok (map (fun a => PStr (string_of_ascii a)) (list_ascii_of_string s))
  | PDict d => Ok (map (fun kv => PStr (fst kv)) d)
  | _ => Raise TypeError
  end.
End Builtins.

(** ** Two arithmetics

    Both read plain decimal numerals, [[+-]digits[.digits]], the form
    in which the venue sends prices.  The other spellings that Python
    accepts (exponents, [inf], [nan], underscores, surrounding blanks)
    are outside this reader and are rejected by it. *)

Module Decimal.
Definition digit_of_ascii (a : ascii) : option Z :=
  let n := Z.of_nat (nat_of_ascii a) in
  if (48 <=? n) && (n <=? 57) then Some (n - 48) else None.

(** the digits of [s] appended to [acc], and how many were read *)
Fixpoint digits (s : string) (acc : Z) (count : nat) : option (Z * nat) :=
  match s with
  | EmptyString => Some (acc, count)
  | String a rest =>
      match digit_of_ascii a with
      | Some d => digits rest (10 * acc + d) (S count)
      | None => None
      end
  end.

Fixpoint split_dot (s : string) : string * option string :=
  match s with
  | EmptyString => (EmptyString, None)
  | String a rest =>
      if Ascii.eqb a "."%char then (EmptyString, Some rest)
      else let '(i, f) := split_dot rest in (String a i, f)
  end.

(** [Some (m, k)] when [s] denotes [m / 10^k] *)
Definition unsigned (s : string) : option (Z * nat) :=
  let '(i, f) := split_dot s in
  match digits i 0 0%nat with
  | Some (mi, ni) =>
      match f with
      | None => if Nat.eqb ni 0 then None else Some (mi, 0%nat)
      | Some fs =>
          match digits fs mi 0%nat with
          | Some (m, nf) => if Nat.eqb (ni + nf) 0 then None else Some (m, nf)
          | None => None
          end
      end
  | None => None
  end.

(** sign, digits and scale of a numeral *)
Definition read (s : string) : option (bool * Z * nat) :=
  let signed (neg : bool) (r : string) :=
    (fun '(m, k) => (neg, m, k)) <$> unsigned r in
  match s with
  | EmptyString => None
  | String a rest =>
      if Ascii.eqb a "-"%char then signed true rest
      else if Ascii.eqb a "+"%char then signed false rest
      else signed false s
  end.
End Decimal.

(** *** IEEE binary64, on the kernel's floats *)

Module Binary64.
(** [float(n)]: the nearest double, ties to even. *)
Definition of_Z (z : Z) : PrimFloat.float :=
  SF2Prim (binary_normalize prec emax z 0 false).

Definition fits (z : Z) : bool := negb (PrimFloat.is_infinity (of_Z z)).

(** the correctly rounded quotient [m / 10^k], with the sign [neg] *)
Definition decimal (neg : bool) (m : Z) (k : nat) : PrimFloat.float :=
  match m with
  | Zpos p =>
      SF2Prim (SFdiv prec emax (S754_finite neg p 0)
                 (S754_finite false (Z.to_pos (10 ^ Z.of_nat k)) 0))
  | _ => SF2Prim (S754_zero neg)
  end.

Definition of_string (s : string) : option PrimFloat.float :=
  (fun '(neg, m, k) => decimal neg m k) <$> Decimal.read s.
End Binary64.

#[export] Instance binary64 : PyFloat := {|
  float := PrimFloat.float;
  float_of_Z := Binary64.of_Z;
  int_fits := Binary64.fits;
  float_of_string := Binary64.of_string;
  fadd := PrimFloat.add;
  fsub := PrimFloat.sub;
  fmul := PrimFloat.mul;
  fdiv := PrimFloat.div;
  fle := PrimFloat.leb;
  float_of_empty_string := eq_refl
|}.

(** The same arithmetic with another reading of numerals: [float(s)]
    accepts more spellings than [Binary64.of_string] reads, and no
    operation on doubles depends on them. *)
Definition binary64_reading (reader : string -> option PrimFloat.float)
  (reader_empty : reader "" = None) : PyFloat := {|
  float := PrimFloat.float;
  float_of_Z := Binary64.of_Z;
  int_fits := Binary64.fits;
  float_of_string := reader;
  fadd := PrimFloat.add;
  fsub := PrimFloat.sub;
  fmul := PrimFloat.mul;
  fdiv := PrimFloat.div;
  fle := PrimFloat.leb;
  float_of_empty_string := reader_empty
|}.

(** *** Exact arithmetic on the rationals: no rounding, no overflow *)

Module Exact.
Definition of_string (s : string) : option Q :=
  (fun '(neg, m, k) =>
     Qmake (if neg : bool then - m else m) (Z.to_pos (10 ^ Z.of_nat k)))
  <$> Decimal.read s.
End Exact.

Definition exact : PyFloat := {|
  float := Q;
  float_of_Z := inject_Z;
  int_fits := fun _ => true;
  float_of_string := Exact.of_string;
  fadd := Qplus;
  fsub := Qminus;
  fmul := Qmult;
  fdiv := Qdiv;
  fle := Qle_bool;
  float_of_empty_string := eq_refl
|}.

(** ** Readings of binary64 rounding

    What [SpecFloat] computes for a division and an addition, read on
    the integers: a double is counted in units of [2^-1074], the least
    positive double, and a quotient [P / D] of such counts is followed
    through the shifts of the rounding by the place of [P] among the
    multiples of a step [a]. *)

(** [2^e] in units of [2^-1074], the least positive double *)
Definition weight (e : Z) : Z := 2 ^ (e + 1074).

(** [P / a] lies in [[m, m + 1)], at the place the round and sticky
    bits [r] and [s] tell: on [m], below, on or above [m + 1/2] *)
Definition located (P a : Z) (mrs : shr_record) : Prop :=
  let m := shr_m mrs in
  0 <= m /\ m * a <= P < (m + 1) * a /\
  match shr_r mrs, shr_s mrs with
  | false, false => P = m * a
  | false, true => m * a < P /\ 2 * P < (2 * m + 1) * a
  | true, false => 2 * P = (2 * m + 1) * a
  | true, true => (2 * m + 1) * a < 2 * P
  end.

(** [n] is the integer nearest to [P / a], the even one of two *)
Definition nearest_even (P a n : Z) : Prop :=
  2 * Z.abs (n * a - P) <= a /\
  (2 * Z.abs (n * a - P) = a -> Z.even n = true).

(** [e] is the exponent of the doubles around [P / D], in units of
    [2^-1074]: the quotient is below [2^53 * 2^e], and not below
    [2^52 * 2^e] unless [e] is the least exponent *)
Definition binade (P D e : Z) : Prop :=
  -1074 <= e /\
  (-1074 < e -> 2 ^ 52 * (D * weight e) <= P) /\
  P < 2 ^ 53 * (D * weight e).

(** [n * 2^e] is [P / D] rounded to nearest, ties to even *)
Definition rounding (P D n e : Z) : Prop :=
  binade P D e /\ 0 <= n /\ nearest_even P (D * weight e) n.

(** the double of sign [s], mantissa [n] and exponent [e] *)
Definition pack (s : bool) (n e : Z) : spec_float :=
  match n with
  | 0 => S754_zero s
  | Zpos m => if e <=? 971 then S754_finite s m e else S754_infinity s
  | Zneg _ => S754_nan
  end.

(** the same after a mantissa of [2^53] has been shifted *)
Definition finish (s : bool) (n e : Z) : spec_float :=
  if n =? 2 ^ 53 then pack s (2 ^ 52) (e + 1) else pack s n e.

(** the value of a double in units of [2^-1074]; the infinities are
    placed at [2^2098], above every double *)
Definition units (x : spec_float) : Z :=
  match x with
  | S754_zero _ | S754_nan => 0
  | S754_infinity s => if s then - 2 ^ 2098 else 2 ^ 2098
  | S754_finite s m e => if s then - (Zpos m * weight e) else Zpos m * weight e
  end.

Definition is_number (x : spec_float) : bool :=
  match x with
  | S754_nan => false
  | _ => true
  end.

(** the value of [finish false n e], in the same units *)
Definition finished (n e : Z) : Z :=
  if (if n =? 2 ^ 53 then e + 1 else e) <=? 971 then n * weight e
  else 2 ^ 2098.

(** [v] is [P / D] rounded to a double, in units of [2^-1074] *)
Definition rounds_to (P D v : Z) : Prop :=
  exists n e, rounding P D n e /\ v = finished n e.

Definition rounded (P D v : Z) : Prop :=
  if 0 <=? P then rounds_to P D v else rounds_to (- P) D (- v).

Definition finite_or_zero (x : spec_float) : bool :=
  match x with
  | S754_zero _ | S754_finite _ _ _ => true
  | _ => false
  end.

(** ** The relay: state and handlers *)

(** identity of a downstream [WebSocket] object *)
Definition client := nat.
(** identity of a [BybitWebSocket] object *)
Definition handle := nat.

(** What the handlers do to the queue and to the outside, in program
    order: the deque operations, every [send_text] with its outcome
    ([ok = false] when it raised), and the two [logging.error] calls.
    The [logging.info] calls are not recorded. *)
Inductive effect : Type :=
| Append (message : string)
| Popleft (message : string)
| SendText (c : client) (message : string) (ok : bool)
| LogSendError (c : client)
| LogCallbackError (e : exn).

(** The module's globals, then the upstream venue as the program sees
    it: the kline subscriptions that are live, the order-book streams
    asked for, and the identity of the next [BybitWebSocket] object. *)
Record state : Type := mkState {
  active_bybit_ws : option handle;
  message_queue : list string;
  clients : gset client;
  kline_streams : gset handle;
  orderbook_streams : list (handle * string);
  next_handle : handle;
  trace : list effect
}.

Definition initial : state :=
  mkState None [] ∅ ∅ [] 0%nat [].

Definition emit (e : effect) (st : state) : state :=
  mkState (active_bybit_ws st) (message_queue st) (clients st)
    (kline_streams st) (orderbook_streams st) (next_handle st)
    (trace st ++ [e]).

Definition set_queue (q : list string) (st : state) : state :=
  mkState (active_bybit_ws st) q (clients st)
    (kline_streams st) (orderbook_streams st) (next_handle st) (trace st).

Definition set_clients (cs : gset client) (st : state) : state :=
  mkState (active_bybit_ws st) (message_queue st) cs
    (kline_streams st) (orderbook_streams st) (next_handle st) (trace st).

(** [message_queue.append(message)] *)
Definition queue_append (message : string) (st : state) : state :=
  emit (Append message) (set_queue (message_queue st ++ [message]) st).

(** [clients.add(c)] and [clients.discard(c)] *)
Definition add_client (c : client) (st : state) : state :=
  set_clients ({[c]} ∪ clients st) st.
Definition discard_client (c : client) (st : state) : state :=
  set_clients (clients st ∖ {[c]}) st.

(** [active_bybit_ws = BybitWebSocket(...)] followed by
    [active_bybit_ws.kline_stream(...)]: a new object, one more live
    kline subscription. *)
Definition open_kline (st : state) : state :=
  let h := next_handle st in
  mkState (Some h) (message_queue st) (clients st)
    ({[h]} ∪ kline_streams st) (orderbook_streams st) (S h) (trace st).

(** [active_bybit_ws.exit()] followed by [active_bybit_ws = None]:
    the connection [h] is closed with every stream it carried. *)
Definition exit_upstream (h : handle) (st : state) : state :=
  mkState None (message_queue st) (clients st)
    (kline_streams st ∖ {[h]})
    (filter (fun hs => hs.1 ≠ h) (orderbook_streams st))
    (next_handle st) (trace st).

(** [active_bybit_ws.orderbook_stream(depth=1, symbol=symbol)] *)
Definition orderbook_stream (h : handle) (symbol : string) (st : state) : state :=
  mkState (active_bybit_ws st) (message_queue st) (clients st)
    (kline_streams st) (orderbook_streams st ++ [(h, symbol)])
    (next_handle st) (trace st).

(** *** [broadcast_messages]: one iteration of the [while True] loop

    [ok c] tells whether [client.send_text] returns for [c] in this
    iteration ([false]: it raises an [Exception]).  An iteration is one
    step: the callback and the connection handlers run between
    iterations, not between two writes of one. *)

Definition send_to (ok : client -> bool) (message : string)
  (st : state) (c : client) : state :=
  if ok c then emit (SendText c message true) st
  else discard_client c
         (emit (LogSendError c) (emit (SendText c message false) st)).

Definition broadcast_tick (ok : client -> bool) (st : state) : state :=
  match message_queue st with
  | message :: rest =>
      if bool_decide (clients st ≠ ∅) then
        foldl (send_to ok message)
          (set_queue rest (emit (Popleft message) st))
          (elements (clients st))
      else st
  | [] => st
  end.

(** the loop, cut after one iteration per element of [wakeups] *)
Definition broadcast_messages (wakeups : list (client -> bool))
  (st : state) : state :=
  foldl (fun st ok => broadcast_tick ok st) st wakeups.

(** *** [websocket_endpoint] *)

(** [s.split(sep)] for a one-character separator *)
Fixpoint split_on (sep : ascii) (s : string) : list string :=
  match s with
  | EmptyString => [EmptyString]
  | String a rest =>
      if Ascii.eqb a sep then EmptyString :: split_on sep rest
      else match split_on sep rest with
           | piece :: pieces => String a piece :: pieces
           | [] => [String a EmptyString]
           end
  end.

(** from [accept] to the first [receive_text] *)
Definition connect (c : client) (st : state) : state :=
  let st := add_client c st in
  match active_bybit_ws st with
  | None => open_kline st
  | Some _ => st
  end.

(** the [finally] block *)
Definition disconnect (c : client) (st : state) : state :=
  let st := discard_client c st in
  match active_bybit_ws st with
  | Some h => if bool_decide (clients st = ∅) then exit_upstream h st else st
  | None => st
  end.

(** the body of [while True] for one text of the client *)
Definition on_text (data : string) (st : state) : result state :=
  if String.prefix "subscribe:" data then
    symbol ← match split_on ":"%char data !! 1%nat with
              | Some piece => Ok piece
              | None => Raise IndexError
              end;
    match active_bybit_ws st with
    | Some h => Ok (orderbook_stream h symbol st)
    | None => Raise AttributeError
    end
  else Ok st.

(** one turn of the receive loop of client [c]; an exception raised in
    it leaves through [finally] *)
Definition receive (c : client) (data : string) (st : state) : state :=
  match on_text data st with
  | Ok st' => st'
  | Raise _ => disconnect c st
  end.

(** the receive loop of a client that sends [texts] and goes away
    ([receive_text] then raises [WebSocketDisconnect]) *)
Fixpoint receive_loop (texts : list string) (st : state) : state :=
  match texts with
  | [] => st
  | data :: rest =>
      match on_text data st with
      | Ok st' => receive_loop rest st'
      | Raise _ => st
      end
  end.

(** the handler of one connection, run without interruption *)
Definition websocket_endpoint (c : client) (texts : list string)
  (st : state) : state :=
  disconnect c (receive_loop texts (connect c st)).

(** *** Readings of an iteration and of the upstream state *)

(** what one [send_text] writes to the trace *)
Definition send_effects (ok : client -> bool) (message : string) (c : client)
  : list effect :=
  if ok c then [SendText c message true]
  else [SendText c message false; LogSendError c].

(** the subscriptions that the handle in [active_bybit_ws] accounts for *)
Definition live_of (active : option handle) : gset handle :=
  match active with
  | Some h => {[h]}
  | None => ∅
  end.

(** the live kline subscriptions are those of [active_bybit_ws] *)
Definition accounted (st : state) : Prop :=
  kline_streams st = live_of (active_bybit_ws st).

(** an empty registry has no subscription *)
Definition closed_when_empty (st : state) : Prop :=
  clients st = ∅ -> active_bybit_ws st = None.

(** *** [bybit_callback] and the event loop *)

Definition tz_offset : Z := 3 * 60 * 60.

Section Relay.
Context `{PyFloat}.
(** [json.dumps], on the values the callback builds *)
Variable json_dumps : pyval -> string.

(** [float(ms) / 1000 + (3 * 60 * 60)] *)
Definition ms_to_local (ms : float) : float :=
  fadd (fdiv ms (float_of_Z 1000)) (float_of_Z tz_offset).

(** [float(m[key])] *)
Definition float_field (m : pyval) (key : string) : result float :=
  v ← getitem m key;
  py_float v.

(** the body of [for m in data] *)
Definition convert_message (m : pyval) : result pyval :=
  close ← float_field m "close";
  let d := dict_set [] "close" (PFloat close) in
  high ← float_field m "high";
  let d := dict_set d "high" (PFloat high) in
  low ← float_field m "low";
  let d := dict_set d "low" (PFloat low) in
  open ← float_field m "open";
  let d := dict_set d "open" (PFloat open) in
  timestamp ← float_field m "timestamp";
  let d := dict_set d "time" (PFloat (ms_to_local timestamp)) in
  start ← float_field m "start";
  let d := dict_set d "start" (PFloat (ms_to_local start)) in
  end_ ← float_field m "end";
  let d := dict_set d "end" (PFloat (ms_to_local end_)) in
  confirm ← getitem m "confirm";
  let d := dict_set d "confirm" confirm in
  Ok (PDict d).

(** the [try] block up to the argument of [message_queue.append] *)
Definition normalize (message : pyval) : result string :=
  data ← getitem message "data";
  items ← py_iter data;
  converted_messages ← for_each convert_message items;
  Ok (json_dumps (PList converted_messages)).

Definition bybit_callback (message : pyval) (st : state) : state :=
  match normalize message with
  | Ok serialized => queue_append serialized st
  | Raise e => emit (LogCallbackError e) st
  end.

(** What can happen to the service: the venue pushes a tick, the
    broadcast loop wakes up, a client connects, sends a text, or its
    handler ends. *)
Inductive event : Type :=
| Callback (message : pyval)
| Tick (ok : client -> bool)
| Connect (c : client)
| Receive (c : client) (data : string)
| Disconnect (c : client).

Definition step (st : state) (ev : event) : state :=
  match ev with
  | Callback message => bybit_callback message st
  | Tick ok => broadcast_tick ok st
  | Connect c => connect c st
  | Receive c data => receive c data st
  | Disconnect c => disconnect c st
  end.

Definition run (evs : list event) (st : state) : state := foldl step st evs.

(** the events of the connect/disconnect step relation *)
Definition is_lifecycle (ev : event) : bool :=
  match ev with
  | Connect _ | Disconnect _ => true
  | _ => false
  end.

(** *** Readings of a trace and of a raw record *)

Definition appended (t : list effect) : list string :=
  omap (fun e => match e with Append m => Some m | _ => None end) t.

Definition popped (t : list effect) : list string :=
  omap (fun e => match e with Popleft m => Some m | _ => None end) t.

(** the clients [send_text] was called on, with what and how it ended *)
Definition sends (t : list effect) : list (client * string * bool) :=
  omap (fun e => match e with SendText c m ok => Some (c, m, ok) | _ => None end) t.

(** the part of the trace written since [before] *)
Definition since (before after : state) : list effect :=
  drop (length (trace before)) (trace after).

(** what the broadcast loop writes to a trace: the pops, the writes
    and the logged write failures; the callback's effects are the
    other two *)
Definition is_loop_effect (e : effect) : bool :=
  match e with
  | Append _ | LogCallbackError _ => false
  | Popleft _ | SendText _ _ _ | LogSendError _ => true
  end.

Definition loop_effects (t : list effect) : list effect :=
  List.filter is_loop_effect t.

(** A dispatch: the batch taken from the queue, the clients it is
    written to, in the order of the writes, and how each write ends. *)
Record dispatch : Type := mkDispatch {
  d_message : string;
  d_snapshot : list client;
  d_ok : client -> bool
}.

(** the trace of a dispatch: the pop, then every write of the batch *)
Definition dispatch_effects (d : dispatch) : list effect :=
  Popleft (d_message d)
    :: concat (map (send_effects (d_ok d) (d_message d)) (d_snapshot d)).

(** the writes of a dispatch, as [sends] reads them *)
Definition dispatch_writes (d : dispatch) : list (client * string * bool) :=
  map (fun c => (c, d_message d, d_ok d c)) (d_snapshot d).

(** the batches the callbacks of a run hand to [message_queue.append] *)
Definition enqueued (evs : list event) : list string :=
  omap (fun ev => match ev with
                  | Callback message =>
                      match normalize message with
                      | Ok serialized => Some serialized
                      | Raise _ => None
                      end
                  | _ => None
                  end) evs.

(** the states a run goes through, the last one included *)
Fixpoint visited (evs : list event) (st : state) : list state :=
  match evs with
  | [] => [st]
  | ev :: rest => st :: visited rest (step st ev)
  end.

(** [d] is the dispatch of a wake-up of the loop in the state [st]:
    the batch is the head of the queue, the registry is not empty and
    the snapshot is its listing *)
Definition fires_in (st : state) (d : dispatch) : Prop :=
  clients st ≠ ∅ /\
  (exists rest, message_queue st = d_message d :: rest) /\
  d_snapshot d = elements (clients st).

Definition numeric_fields : list string :=
  ["close"; "high"; "low"; "open"; "timestamp"; "start"; "end"].

Definition is_missing (m : pyval) (key : string) : bool :=
  match getitem m key with
  | Ok _ => false
  | Raise _ => true
  end.

Definition is_non_numeric (m : pyval) (key : string) : bool :=
  match getitem m key with
  | Ok v => match py_float v with
            | Ok _ => false
            | Raise _ => true
            end
  | Raise _ => false
  end.

(** a record with a missing or non-numeric field *)
Definition malformed (m : pyval) : bool :=
  existsb (fun key => is_missing m key || is_non_numeric m key) numeric_fields
  || is_missing m "confirm".

(** the fields of a well-formed raw record, parsed *)
Record kline : Type := mkKline {
  k_close : float;
  k_high : float;
  k_low : float;
  k_open : float;
  k_timestamp : float;
  k_start : float;
  k_end : float;
  k_confirm : pyval
}.

Definition reads_as (m : pyval) (k : kline) : Prop :=
  float_field m "close" = Ok (k_close k) /\
  float_field m "high" = Ok (k_high k) /\
  float_field m "low" = Ok (k_low k) /\
  float_field m "open" = Ok (k_open k) /\
  float_field m "timestamp" = Ok (k_timestamp k) /\
  float_field m "start" = Ok (k_start k) /\
  float_field m "end" = Ok (k_end k) /\
  getitem m "confirm" = Ok (k_confirm k).

(** the candle the spec describes for a parsed record *)
Definition candle (k : kline) : pyval :=
  PDict
    [("close", PFloat (k_close k));
     ("high", PFloat (k_high k));
     ("low", PFloat (k_low k));
     ("open", PFloat (k_open k));
     ("time", PFloat (fadd (fdiv (k_timestamp k) (float_of_Z 1000)) (float_of_Z 10800)));
     ("start", PFloat (fadd (fdiv (k_start k) (float_of_Z 1000)) (float_of_Z 10800)));
     ("end", PFloat (fadd (fdiv (k_end k) (float_of_Z 1000)) (float_of_Z 10800)));
     ("confirm", k_confirm k)].

(** [x / 1000 + 10800] is monotone: a law of correctly rounded
    arithmetic, and of exact arithmetic *)
Definition conversion_monotone : Prop :=
  forall x y, fle x y = true -> fle (ms_to_local x) (ms_to_local y) = true.
End Relay.

(** ** [read_root]: the [/kline-history] endpoint *)

Section History.
Context `{PyFloat}.

(** the keyword arguments of [session.get_kline] *)
Record kline_params : Type := mkParams {
  kp_category : string;
  kp_symbol : string;
  kp_interval : string;
  kp_limit : Z;
  kp_end : option float
}.

(** [limit or 200] *)
Definition limit_or_default (limit : option Z) : Z :=
  match limit with
  | Some n => if n =? 0 then 200 else n
  | None => 200
  end.

(** [(float(end) - (3 * 60 * 60)) * 1000] *)
Definition local_to_ms (seconds : float) : float :=
  fmul (fsub seconds (float_of_Z tz_offset)) (float_of_Z 1000).

(** the dictionary [kline_params], with [end] set under [if end:] *)
Definition build_params (category symbol interval : string)
  (limit : option Z) (end_ : option string) : result kline_params :=
  let limit := limit_or_default limit in
  match end_ with
  | Some (String a rest) =>
      seconds ← py_float (PStr (String a rest));
      Ok (mkParams category symbol interval limit (Some (local_to_ms seconds)))
  | Some EmptyString | None =>
      Ok (mkParams category symbol interval limit None)
  end.

(** [len(v)] *)
Definition py_len (v : pyval) : result nat :=
  match v with
  | PList l => Ok (length l)
  | PStr s => Ok (String.length s)
  | PDict d => Ok (length d)
  | _ => Raise TypeError
  end.

(** [v[i] = x].  On a dict Python would add the key [i]; the loop
    below reads [v[i]] first, which raises there, so that case is never
    reached. *)
Definition setindex (v : pyval) (i : nat) (x : pyval) : result pyval :=
  match v with
  | PList l => if bool_decide (i < length l)%nat then Ok (PList (<[i := x]> l))
               else Raise IndexError
  | _ => Raise TypeError
  end.

(** [v[::-1]] *)
Definition reversed (v : pyval) : result pyval :=
  match v with
  | PList l => Ok (PList (reverse l))
  | PStr s => Ok (PStr (string_of_list_ascii (reverse (list_ascii_of_string s))))
  | _ => Raise TypeError
  end.

(** [float(kline_history_data[i])] *)
Definition float_at (data : pyval) (i : nat) : result float :=
  v ← getindex data i;
  py_float v.

(** the dictionary built from one upstream entry *)
Definition convert_candlestick (data : pyval) : result pyval :=
  time ← float_at data 0;
  open ← float_at data 1;
  high ← float_at data 2;
  low ← float_at data 3;
  close ← float_at data 4;
  Ok (PDict [("time", PFloat (ms_to_local time));
             ("open", PFloat open);
             ("high", PFloat high);
             ("low", PFloat low);
             ("close", PFloat close)]).

(** [for candlestick_idx in range(...)]: the list is overwritten in
    place, one index at a time *)
Fixpoint convert_in_place (idxs : list nat) (klines_history : pyval)
  : result pyval :=
  match idxs with
  | [] => Ok klines_history
  | candlestick_idx :: rest =>
      kline_history_data ← getindex klines_history candlestick_idx;
      converted ← convert_candlestick kline_history_data;
      klines_history ← setindex klines_history candlestick_idx converted;
      convert_in_place rest klines_history
  end.

(** [get_kline] is the venue's answer to the request, or the exception
    of the HTTP session. *)
Definition read_root (get_kline : kline_params -> result pyval)
  (category symbol interval : string)
  (limit : option Z) (end_ : option string) : result pyval :=
  kline_params ← build_params category symbol interval limit end_;
  klines_history ← get_kline kline_params;
  klines_history ← getitem klines_history "result";
  klines_history ← getitem klines_history "list";
  n ← py_len klines_history;
  klines_history ← convert_in_place (seq 0 n) klines_history;
  reversed klines_history.

(** what [read_root] makes of the venue's answer: the statements
    that follow the call of [session.get_kline] *)
Definition history_of (answer : pyval) : result pyval :=
  klines_history ← getitem answer "result";
  klines_history ← getitem klines_history "list";
  n ← py_len klines_history;
  klines_history ← convert_in_place (seq 0 n) klines_history;
  reversed klines_history.

(** the leading five entries of an upstream row, parsed *)
Record row : Type := mkRow {
  r_time : float;
  r_open : float;
  r_high : float;
  r_low : float;
  r_close : float
}.

Definition row_reads_as (data : pyval) (r : row) : Prop :=
  float_at data 0 = Ok (r_time r) /\
  float_at data 1 = Ok (r_open r) /\
  float_at data 2 = Ok (r_high r) /\
  float_at data 3 = Ok (r_low r) /\
  float_at data 4 = Ok (r_close r).

(** the entry the spec describes for a parsed row *)
Definition history_entry (r : row) : pyval :=
  PDict [("time", PFloat (fadd (fdiv (r_time r) (float_of_Z 1000)) (float_of_Z 10800)));
         ("open", PFloat (r_open r));
         ("high", PFloat (r_high r));
         ("low", PFloat (r_low r));
         ("close", PFloat (r_close r))].
End History.

(** ** A stand-in for [json.dumps] at binary64

    Python writes a float as the shortest numeral that reads back; the
    stand-in writes its exact decimal expansion, which is the same
    numeral for the values of the examples below.  Strings are written
    without escapes. *)

Module Render.
Definition zeros (n : nat) : string :=
  string_of_list_ascii (replicate n "0"%char).

Fixpoint strip_zeros (digits : list ascii) : list ascii :=
  match digits with
  | [] => []
  | a :: rest =>
      match strip_zeros rest with
      | [] => if Ascii.eqb a "0"%char then [] else [a]
      | kept => a :: kept
      end
  end.

(** the digits of [num / 2^k] after the point, [0 <= num < 2^k] *)
Definition fraction (num : Z) (k : nat) : string :=
  let digits := pretty (num * 10 ^ Z.of_nat k / 2 ^ Z.of_nat k) in
  let padded := (zeros (k - String.length digits)%nat ++ digits)%string in
  match strip_zeros (list_ascii_of_string padded) with
  | [] => "0"
  | kept => string_of_list_ascii kept
  end.

Definition float_repr (f : PrimFloat.float) : string :=
  match Prim2SF f with
  | S754_nan => "NaN"
  | S754_infinity neg => if neg then "-Infinity" else "Infinity"
  | S754_zero neg => if neg then "-0.0" else "0.0"
  | S754_finite neg m e =>
      ((if neg then "-" else EmptyString) ++
       match e with
       | Zneg k =>
           let k := Pos.to_nat k in
           pretty (Zpos m / 2 ^ Z.of_nat k) ++ "."
           ++ fraction (Zpos m mod 2 ^ Z.of_nat k) k
       | _ => pretty (Zpos m * 2 ^ e) ++ ".0"
       end)%string
  end.

Definition quoted (s : string) : string :=
  let q := String (ascii_of_nat 34) EmptyString in (q ++ s ++ q)%string.

Definition join (pieces : list string) : string :=
  match pieces with
  | [] => EmptyString
  | first :: others =>
      fold_left (fun acc piece => (acc ++ ", " ++ piece)%string) others first
  end.

Fixpoint dumps (v : @pyval binary64) : string :=
  match v with
  | PNone => "null"
  | PBool b => if b then "true" else "false"
  | PInt z => pretty z
  | PFloat f => float_repr f
  | PStr s => quoted s
  | PList items => ("[" ++ join (List.map dumps items) ++ "]")%string
  | PDict entries =>
      ("{" ++ join (List.map (fun kv => (quoted (fst kv) ++ ": " ++ dumps (snd kv))%string)
                      entries) ++ "}")%string
  end.
End Render.

(** ** Data of the worked examples *)

(** two batches queued, clients 1 and 2 registered, one subscription *)
Definition busy : state :=
  mkState (Some 0%nat) ["b1"; "b2"] {[1%nat; 2%nat]} {[0%nat]} [] 1%nat [].

(** the write to client 1 raises, every other write returns *)
Definition client_1_fails (c : client) : bool := negb (Nat.eqb c 1).

(** a tick as the venue pushes it: one record, prices as strings *)
Definition tick_record : @pyval binary64 :=
  PDict [("start", PInt 1672324800000); ("end", PInt 1672324859999);
         ("interval", PStr "1"); ("open", PStr "16649.5");
         ("close", PStr "16677"); ("high", PStr "16677");
         ("low", PStr "16608"); ("volume", PStr "2.081");
         ("turnover", PStr "34666.4005"); ("confirm", PBool false);
         ("timestamp", PInt 1672324808000)].

Definition tick_parsed : @kline binary64 :=
  mkKline 16677%float 16677%float 16608%float 16649.5%float
    1672324808000%float 1672324800000%float 1672324859999%float
    (PBool false).

Definition tick_message : @pyval binary64 :=
  PDict [("topic", PStr "kline.1.KAITOUSDT");
         ("data", PList [tick_record; tick_record]);
         ("ts", PInt 1672324808576); ("type", PStr "snapshot")].

(** the same tick, its second record without a [close] field *)
Definition broken_message : @pyval binary64 :=
  PDict [("topic", PStr "kline.1.KAITOUSDT");
         ("data", PList [tick_record;
                         PDict [("open", PStr "16649.5"); ("high", PStr "n/a")]])].

(** two clients come and go *)
Definition two_visits : list (@event binary64) :=
  [Connect 1%nat; Connect 2%nat; Disconnect 1%nat; Disconnect 2%nat].

(** a busy session: ticks, a failed write, a second round of clients *)
Definition session : list (@event binary64) :=
  [Connect 1%nat; Callback tick_message; Connect 2%nat;
   Receive 2%nat "subscribe:BTCUSDT"; Tick client_1_fails;
   Callback broken_message; Disconnect 2%nat; Disconnect 1%nat;
   Connect 3%nat; Callback tick_message; Tick client_1_fails].

(** *** The history endpoint *)

(** the venue's answer: newest row first, every entry a string *)
Definition venue_rows : list (@pyval binary64) :=
  [PList [PStr "1670608860000"; PStr "17055.5"; PStr "17073"; PStr "17027";
          PStr "17071.5"; PStr "268611"; PStr "15.74462667"];
   PList [PStr "1670608800000"; PStr "17071"; PStr "17073"; PStr "17027";
          PStr "17055.5"; PStr "268611"; PStr "15.74462667"]].

Definition venue_parsed : list (@row binary64) :=
  [mkRow 1670608860000%float 17055.5%float 17073%float 17027%float 17071.5%float;
   mkRow 1670608800000%float 17071%float 17073%float 17027%float 17055.5%float].

Definition venue (p : @kline_params binary64) : result (@pyval binary64) :=
  Ok (PDict [("retCode", PInt 0); ("retMsg", PStr "OK");
             ("result", PDict [("symbol", PStr (kp_symbol p));
                               ("category", PStr (kp_category p));
                               ("list", PList venue_rows)])]).

(** a venue that only tells which limit it was asked for *)
Definition limit_probe (p : @kline_params binary64) : result (@pyval binary64) :=
  Raise (KeyError (pretty (kp_limit p))).

(** *** The order of a candle's times *)

(** a record whose [start] lies after its [timestamp] and its [end] *)
Definition disordered_record : @pyval binary64 :=
  PDict [("close", PStr "1.5"); ("high", PStr "2"); ("low", PStr "0.5");
         ("open", PStr "1"); ("timestamp", PInt 60000);
         ("start", PInt 120000); ("end", PInt 0); ("confirm", PBool true)].

Definition disordered_candle : @pyval binary64 :=
  PDict [("close", PFloat 1.5%float); ("high", PFloat 2%float);
         ("low", PFloat 0.5%float); ("open", PFloat 1%float);
         ("time", PFloat 10860%float); ("start", PFloat 10920%float);
         ("end", PFloat 10800%float); ("confirm", PBool true)].

(** the same shape of record, well ordered, read in exact arithmetic *)
Definition ordered_record : @pyval exact :=
  PDict [("close", PStr "1.5"); ("high", PStr "2"); ("low", PStr "0.5");
         ("open", PStr "1"); ("timestamp", PInt 60000);
         ("start", PInt 0); ("end", PInt 120000); ("confirm", PBool true)].

Definition ordered_parsed : @kline exact :=
  mkKline (H := exact) (15 # 10) (2 # 1) (5 # 10) (1 # 1)
    (inject_Z 60000) (inject_Z 0) (inject_Z 120000) (PBool true).

(** ** Further readings of the service *)

(** the batches that reached client [c]: its writes that returned *)
Definition received (c : client) (t : list effect) : list string :=
  omap (fun e => match e with
                 | SendText c' m true => if decide (c' = c) then Some m else None
                 | _ => None
                 end) t.

(** the batches written to client [c], whatever the outcome *)
Definition sent_to (c : client) (t : list effect) : list string :=
  omap (fun e => match e with
                 | SendText c' m _ => if decide (c' = c) then Some m else None
                 | _ => None
                 end) t.

(** a non-empty registry has a subscription *)
Definition open_when_registered (st : state) : Prop :=
  clients st ≠ ∅ -> is_Some (active_bybit_ws st).

(** every order-book stream runs on the connection of [active_bybit_ws] *)
Definition orderbooks_on_active (st : state) : Prop :=
  forall hs, hs ∈ orderbook_streams st -> active_bybit_ws st = Some hs.1.

(** *** [lifespan] *)

(** [active_bybit_ws.exit()] alone: the connection [h] is closed with
    every stream it carried; the global keeps the object *)
Definition exit_connection (h : handle) (st : state) : state :=
  mkState (active_bybit_ws st) (message_queue st) (clients st)
    (kline_streams st ∖ {[h]})
    (filter (fun hs => hs.1 ≠ h) (orderbook_streams st))
    (next_handle st) (trace st).

(** the part of [lifespan] after [yield]; the cancelled broadcast task
    runs no further iteration *)
Definition lifespan_shutdown (st : state) : state :=
  match active_bybit_ws st with
  | Some h => exit_connection h st
  | None => st
  end.

Section Service.
Context `{PyFloat}.
Variable json_dumps : pyval -> string.

(** [lifespan]: the broadcast task is created, the application serves
    the events [evs], then the task is cancelled and the upstream
    connection closed *)
Definition lifespan (evs : list event) : state :=
  lifespan_shutdown (run json_dumps evs initial).

(** the events of the feed: the venue pushes, the broadcast loop wakes *)
Definition is_feed_event (ev : event) : bool :=
  match ev with
  | Callback _ | Tick _ => true
  | _ => false
  end.

(** the keys of a raw record that [bybit_callback] reads *)
Definition source_keys : list string :=
  ["close"; "high"; "low"; "open"; "timestamp"; "start"; "end"; "confirm"].

(** a payload whose [data] can be iterated and holds no malformed record *)
Definition accepts (message : pyval) : bool :=
  match getitem message "data" with
  | Ok data =>
      match py_iter data with
      | Ok items => forallb (fun m => negb (malformed m)) items
      | Raise _ => false
      end
  | Raise _ => false
  end.
End Service.

(** ** Data of the further examples *)

Definition all_return (c : client) : bool := true.
Definition all_raise (c : client) : bool := false.

(** clients 1 and 2 registered, the queue empty, one subscription *)
Definition ready : state :=
  mkState (Some 0%nat) [] {[1%nat; 2%nat]} {[0%nat]} [] 1%nat [].

(** [tick_record] with nothing but the fields the callback reads *)
Definition bare_record : @pyval binary64 :=
  PDict [("close", PStr "16677"); ("high", PStr "16677"); ("low", PStr "16608");
         ("open", PStr "16649.5"); ("timestamp", PInt 1672324808000);
         ("start", PInt 1672324800000); ("end", PInt 1672324859999);
         ("confirm", PBool false)].

(** a record without its fields *)
Definition stub_record : @pyval binary64 :=
  PDict [("open", PStr "16649.5"); ("high", PStr "n/a")].

(** a row cut after its second entry *)
Definition short_row : @pyval binary64 :=
  PList [PStr "1670608800000"; PStr "17071"].

Definition good_row : @pyval binary64 :=
  PList [PStr "1670608860000"; PStr "17055.5"; PStr "17073"; PStr "17027";
         PStr "17071.5"; PStr "268611"; PStr "15.74462667"].

Definition good_row_parsed : @row binary64 :=
  mkRow 1670608860000%float 17055.5%float 17073%float 17027%float 17071.5%float.

(** a venue whose second row is cut short *)
Definition careless_venue (p : @kline_params binary64) : result (@pyval binary64) :=
  Ok (PDict [("retCode", PInt 0);
             ("result", PDict [("list", PList [good_row; short_row; good_row])])]).

(** * Properties *)

(** ** The broadcast loop *)

Lemma send_to_trace ok message st c :
  trace (send_to ok message st c) = trace st ++ send_effects ok message c.
Proof.
  unfold send_to, send_effects. destruct (ok c); simpl; [done|].
  by rewrite <- app_assoc.
Qed.

Lemma send_to_queue ok message st c :
  message_queue (send_to ok message st c) = message_queue st.
Proof. unfold send_to. by destruct (ok c). Qed.

Lemma send_to_clients ok message st c :
  clients (send_to ok message st c)
  = if ok c then clients st else clients st ∖ {[c]}.
Proof. unfold send_to. by destruct (ok c). Qed.

Lemma send_to_upstream ok message st c :
  active_bybit_ws (send_to ok message st c) = active_bybit_ws st /\
  kline_streams (send_to ok message st c) = kline_streams st.
Proof. unfold send_to. by destruct (ok c). Qed.

(** the [for client in list(clients)] loop over a snapshot [cs] *)
Lemma dispatch_trace ok message cs : forall st,
  trace (foldl (send_to ok message) st cs)
  = trace st ++ concat (map (send_effects ok message) cs).
Proof.
  induction cs as [|c cs IH]; intros st; simpl.
  - by rewrite app_nil_r.
  - by rewrite IH, send_to_trace, <- app_assoc.
Qed.

Lemma dispatch_queue ok message cs : forall st,
  message_queue (foldl (send_to ok message) st cs) = message_queue st.
Proof.
  induction cs as [|c cs IH]; intros st; simpl; [done|].
  by rewrite IH, send_to_queue.
Qed.

Lemma dispatch_upstream ok message cs : forall st,
  active_bybit_ws (foldl (send_to ok message) st cs) = active_bybit_ws st /\
  kline_streams (foldl (send_to ok message) st cs) = kline_streams st.
Proof.
  induction cs as [|c cs IH]; intros st; simpl; [done|].
  destruct (IH (send_to ok message st c)) as [-> ->].
  apply send_to_upstream.
Qed.

(** after the loop, the registry has lost exactly the clients of the
    snapshot whose write failed *)
Lemma dispatch_clients ok message cs : forall st x,
  x ∈ clients (foldl (send_to ok message) st cs)
  <-> x ∈ clients st /\ ~ (x ∈ cs /\ ok x = false).
Proof.
  induction cs as [|c cs IH]; intros st x; simpl.
  - split; [intros Hx; split; [done|] | by intros [Hx _]].
    intros [Hin _]. by apply elem_of_nil in Hin.
  - rewrite IH, send_to_clients. destruct (ok c) eqn:Hc.
    + split; intros [Hx Hn]; (split; [done|]); intros [Hin Hf]; apply Hn.
      * apply elem_of_cons in Hin as [->|Hin]; [congruence | done].
      * split; [by apply elem_of_cons; right | done].
    + rewrite elem_of_difference, elem_of_singleton.
      split.
      * intros [[Hx Hne] Hn]. split; [done|]. intros [Hin Hf].
        apply elem_of_cons in Hin as [->|Hin]; [done | by apply Hn].
      * intros [Hx Hn]. split; [split; [done|] |].
        -- intros ->. apply Hn. split; [by apply elem_of_cons; left | done].
        -- intros [Hin Hf]. apply Hn. split; [by apply elem_of_cons; right | done].
Qed.

Lemma sends_app t1 t2 : sends (t1 ++ t2) = sends t1 ++ sends t2.
Proof. apply omap_app. Qed.
Lemma popped_app t1 t2 : popped (t1 ++ t2) = popped t1 ++ popped t2.
Proof. apply omap_app. Qed.
Lemma appended_app t1 t2 : appended (t1 ++ t2) = appended t1 ++ appended t2.
Proof. apply omap_app. Qed.

Lemma dispatch_sends ok message cs :
  sends (concat (map (send_effects ok message) cs))
  = map (fun c => (c, message, ok c)) cs.
Proof.
  induction cs as [|c cs IH]; simpl; [done|].
  rewrite sends_app, IH. unfold send_effects. by destruct (ok c).
Qed.

Lemma dispatch_popped ok message cs :
  popped (concat (map (send_effects ok message) cs)) = [].
Proof.
  induction cs as [|c cs IH]; simpl; [done|].
  rewrite popped_app, IH. unfold send_effects. by destruct (ok c).
Qed.

Lemma dispatch_appended ok message cs :
  appended (concat (map (send_effects ok message) cs)) = [].
Proof.
  induction cs as [|c cs IH]; simpl; [done|].
  rewrite appended_app, IH. unfold send_effects. by destruct (ok c).
Qed.

Lemma since_app st st' t : trace st' = trace st ++ t -> since st st' = t.
Proof. intros E. unfold since. rewrite E. apply drop_app_length. Qed.

(** a tick that finds a batch and a client: what it writes and leaves *)
Lemma tick_dispatch ok st message rest :
  message_queue st = message :: rest ->
  clients st ≠ ∅ ->
  message_queue (broadcast_tick ok st) = rest /\
  trace (broadcast_tick ok st)
  = trace st ++ Popleft message
      :: concat (map (send_effects ok message) (elements (clients st))) /\
  (forall x, x ∈ clients (broadcast_tick ok st)
             <-> x ∈ clients st /\ ok x = true).
Proof.
  intros Hq Hc. unfold broadcast_tick. rewrite Hq.
  rewrite bool_decide_eq_true_2 by done.
  rewrite dispatch_queue, dispatch_trace. simpl.
  split; [done|]. split; [by rewrite <- app_assoc|].
  intros x. rewrite dispatch_clients. simpl. rewrite elem_of_elements.
  split.
  - intros [Hx Hn]. split; [done|].
    destruct (ok x) eqn:E; [done|]. by destruct Hn.
  - intros [Hx Hok]. split; [done|]. intros [_ Hf]. congruence.
Qed.

(** C1: one tick of the broadcast loop on a non-empty queue.  With no
    registered client the tick changes nothing, so the batch stays
    queued; otherwise exactly the head of the queue is removed, and it
    is written once to each member of the registry as it stood when
    the tick fired, and to nobody else. *)
Theorem tick_pops_one_batch_for_all_clients ok st message rest :
  message_queue st = message :: rest ->
  if bool_decide (clients st = ∅) then
    broadcast_tick ok st = st
  else
    message_queue (broadcast_tick ok st) = rest /\
    popped (since st (broadcast_tick ok st)) = [message] /\
    sends (since st (broadcast_tick ok st))
    = map (fun c => (c, message, ok c)) (elements (clients st)) /\
    NoDup (elements (clients st)) /\
    (forall c, c ∈ elements (clients st) <-> c ∈ clients st).
Proof.
  intros Hq. case_bool_decide as Hc.
  - unfold broadcast_tick. rewrite Hq, Hc.
    by rewrite bool_decide_eq_false_2 by (intros E; by apply E).
  - destruct (tick_dispatch ok st message rest Hq Hc) as (Hq' & Ht & _).
    rewrite (since_app _ _ _ Ht). simpl.
    rewrite dispatch_popped, dispatch_sends.
    repeat split; try done.
    + apply NoDup_elements.
    + by intros ?%elem_of_elements.
    + by intros ?%elem_of_elements.
Qed.

(** C5: in a dispatch, a client whose write fails is out of the
    registry when the dispatch ends, the write has been attempted for
    every client of the snapshot all the same, and a client whose
    write succeeds stays registered. *)
Theorem failed_write_is_isolated ok st message rest (a : client) :
  message_queue st = message :: rest ->
  a ∈ clients st ->
  ok a = false ->
  (a ∉ clients (broadcast_tick ok st)) /\
  (forall b, b ∈ clients st ->
     (b, message, ok b) ∈ sends (since st (broadcast_tick ok st))) /\
  (forall b, b ∈ clients st -> ok b = true ->
     b ∈ clients (broadcast_tick ok st)).
Proof.
  intros Hq Ha Hf.
  assert (Hc : clients st ≠ ∅) by (intros E; rewrite E in Ha; set_solver).
  destruct (tick_dispatch ok st message rest Hq Hc) as (_ & Ht & Hcl).
  rewrite (since_app _ _ _ Ht). simpl. rewrite dispatch_sends.
  split; [|split].
  - rewrite Hcl. intros [_ Hok]. congruence.
  - intros b Hb. apply list_elem_of_fmap. exists b. split; [done|].
    by apply elem_of_elements.
  - intros b Hb Hok. by apply Hcl.
Qed.

(** ** Runs of the service *)

Section RelayFacts.
Context `{PyFloat}.
Variable json_dumps : pyval -> string.

Implicit Types (st : state) (ev : event) (evs : list event).

Lemma run_cons ev evs st : run json_dumps (ev :: evs) st = run json_dumps evs (step json_dumps st ev).
Proof. done. Qed.

Lemma disconnect_trace c st :
  trace (disconnect c st) = trace st /\
  message_queue (disconnect c st) = message_queue st.
Proof.
  unfold disconnect. simpl. destruct (active_bybit_ws st); [|done].
  by case_bool_decide.
Qed.

Lemma on_text_inv data st st' :
  on_text data st = Ok st' ->
  st' = st \/ exists h symbol,
            active_bybit_ws st = Some h /\ st' = orderbook_stream h symbol st.
Proof.
  unfold on_text. destruct (String.prefix _ _); [|intros [= <-]; by left].
  destruct (_ !! _) as [symbol|]; simpl; [|done].
  destruct (active_bybit_ws st) as [h|] eqn:Ha; [|done].
  intros [= <-]. right. by exists h, symbol.
Qed.

Lemma receive_trace c data st :
  trace (receive c data st) = trace st /\
  message_queue (receive c data st) = message_queue st.
Proof.
  unfold receive. destruct (on_text data st) as [st'|e] eqn:E.
  - by destruct (on_text_inv _ _ _ E) as [->|(h & symbol & _ & ->)].
  - apply disconnect_trace.
Qed.

(** Every step only extends the trace, and what it appends and pops
    accounts for the change of the queue. *)
Lemma step_fifo st ev :
  exists t,
    trace (step json_dumps st ev) = trace st ++ t /\
    message_queue st ++ appended t = popped t ++ message_queue (step json_dumps st ev).
Proof.
  destruct ev as [message|ok|c|c data|c]; simpl.
  - unfold bybit_callback.
    destruct (normalize json_dumps message) as [serialized|e].
    + by exists [Append serialized].
    + exists [LogCallbackError e]. simpl. by rewrite app_nil_r.
  - destruct (message_queue st) as [|message rest] eqn:Hq.
    + exists []. unfold broadcast_tick. rewrite Hq. by rewrite !app_nil_r.
    + destruct (decide (clients st = ∅)) as [Hc|Hc].
      * exists []. unfold broadcast_tick. rewrite Hq.
        rewrite bool_decide_eq_false_2 by (intros E; by apply E).
        rewrite Hq. by rewrite !app_nil_r.
      * destruct (tick_dispatch ok st message rest Hq Hc) as (Hq' & Ht & _).
        exists ([Popleft message]
                  ++ concat (map (send_effects ok message) (elements (clients st)))).
        split; [exact Ht|].
        rewrite appended_app, popped_app, dispatch_appended, dispatch_popped, Hq'.
        simpl. by rewrite app_nil_r.
  - exists []. unfold connect. simpl.
    destruct (active_bybit_ws st); simpl; by rewrite !app_nil_r.
  - exists []. destruct (receive_trace c data st) as [-> ->].
    by rewrite !app_nil_r.
  - exists []. destruct (disconnect_trace c st) as [-> ->].
    by rewrite !app_nil_r.
Qed.

Lemma run_fifo evs : forall st,
  exists t,
    trace (run json_dumps evs st) = trace st ++ t /\
    message_queue st ++ appended t = popped t ++ message_queue (run json_dumps evs st).
Proof.
  induction evs as [|ev evs IH]; intros st.
  - exists []. simpl. by rewrite !app_nil_r.
  - rewrite run_cons.
    destruct (step_fifo st ev) as (t1 & Ht1 & Hq1).
    destruct (IH (step json_dumps st ev)) as (t2 & Ht2 & Hq2).
    exists (t1 ++ t2). split.
    + by rewrite Ht2, Ht1, app_assoc.
    + rewrite appended_app, popped_app, app_assoc, Hq1.
      by rewrite <- !app_assoc, Hq2.
Qed.

Lemma loop_effects_app t1 t2 :
  loop_effects (t1 ++ t2) = loop_effects t1 ++ loop_effects t2.
Proof. apply List.filter_app. Qed.

Lemma loop_effects_writes ok message cs :
  loop_effects (concat (map (send_effects ok message) cs))
  = concat (map (send_effects ok message) cs).
Proof.
  induction cs as [|c cs IH]; simpl; [done|].
  rewrite loop_effects_app, IH. unfold send_effects. by destruct (ok c).
Qed.

Lemma enqueued_cons ev evs :
  enqueued json_dumps (ev :: evs)
  = enqueued json_dumps [ev] ++ enqueued json_dumps evs.
Proof.
  unfold enqueued. simpl. destruct ev as [message| | | |]; try done.
  by destruct (normalize json_dumps message).
Qed.

(** What one event writes.  A callback appends its batch or logs its
    exception; a wake-up of the loop that finds a batch and a client is
    one dispatch, of the head of the queue, to the listing of the
    registry; nothing else touches the queue or writes to a client. *)
Lemma step_dispatches st ev :
  exists t ds,
    trace (step json_dumps st ev) = trace st ++ t /\
    appended t = enqueued json_dumps [ev] /\
    loop_effects t = concat (map dispatch_effects ds) /\
    sends t = concat (map dispatch_writes ds) /\
    map d_message ds ++ message_queue (step json_dumps st ev)
    = message_queue st ++ enqueued json_dumps [ev] /\
    Forall (fun d => d_snapshot d ≠ [] /\ fires_in st d) ds.
Proof.
  assert (Hidle : forall st', trace st' = trace st ->
            message_queue st' = message_queue st ->
            enqueued json_dumps [ev] = [] ->
            exists t ds,
              trace st' = trace st ++ t /\
              appended t = enqueued json_dumps [ev] /\
              loop_effects t = concat (map dispatch_effects ds) /\
              sends t = concat (map dispatch_writes ds) /\
              map d_message ds ++ message_queue st'
              = message_queue st ++ enqueued json_dumps [ev] /\
              Forall (fun d => d_snapshot d ≠ [] /\ fires_in st d) ds).
  { intros st' Ht Hq He. exists [], []. rewrite Ht, Hq, He, !app_nil_r.
    by repeat split. }
  destruct ev as [message|ok|c|c data|c].
  - simpl. unfold bybit_callback, enqueued. simpl.
    destruct (normalize json_dumps message) as [serialized|e].
    + exists [Append serialized], []. by repeat split.
    + exists [LogCallbackError e], []. simpl. rewrite app_nil_r.
      by repeat split.
  - change (step json_dumps st (Tick ok)) with (broadcast_tick ok st).
    assert (Hsame : message_queue st = [] \/ clients st = ∅ ->
                    broadcast_tick ok st = st).
    { unfold broadcast_tick. intros [E|E]; [by rewrite E|].
      destruct (message_queue st); [done|].
      rewrite bool_decide_eq_false_2; [done|]. intros N. by apply N. }
    destruct (decide (message_queue st = [])) as [Hq0|Hq0];
      [rewrite Hsame by (by left); by apply Hidle|].
    destruct (decide (clients st = ∅)) as [Hc|Hc];
      [rewrite Hsame by (by right); by apply Hidle|].
    clear Hidle Hsame.
    destruct (message_queue st) as [|message rest] eqn:Hq; [done|].
    destruct (tick_dispatch ok st message rest Hq Hc) as (Hq' & Ht & _).
    exists (Popleft message
              :: concat (map (send_effects ok message) (elements (clients st)))),
           [mkDispatch message (elements (clients st)) ok].
    split; [exact Ht|]. split; [|split; [|split; [|split]]].
    + change (appended (Popleft message :: ?t)) with (appended t).
      apply dispatch_appended.
    + change (loop_effects (Popleft message :: ?t))
        with (Popleft message :: loop_effects t).
      rewrite loop_effects_writes. simpl. by rewrite app_nil_r.
    + change (sends (Popleft message :: ?t)) with (sends t).
      rewrite dispatch_sends. simpl. by rewrite app_nil_r.
    + rewrite Hq'. simpl. by rewrite app_nil_r.
    + apply Forall_singleton. simpl. split.
      * intros E. apply Hc. by apply elements_empty_inv in E as ->%leibniz_equiv.
      * split; [done|]. split; [by exists rest | done].
  - simpl. apply Hidle; [| |done]; unfold connect; simpl;
      by destruct (active_bybit_ws st).
  - simpl. destruct (receive_trace c data st) as [Ht Hq]. by apply Hidle.
  - simpl. destruct (disconnect_trace c st) as [Ht Hq]. by apply Hidle.
Qed.

Lemma run_dispatches evs : forall st,
  exists t ds,
    trace (run json_dumps evs st) = trace st ++ t /\
    appended t = enqueued json_dumps evs /\
    loop_effects t = concat (map dispatch_effects ds) /\
    sends t = concat (map dispatch_writes ds) /\
    map d_message ds ++ message_queue (run json_dumps evs st)
    = message_queue st ++ enqueued json_dumps evs /\
    Forall (fun d => d_snapshot d ≠ [] /\
                     exists s, s ∈ visited json_dumps evs st /\ fires_in s d) ds.
Proof.
  induction evs as [|ev evs IH]; intros st.
  - exists [], []. simpl. rewrite !app_nil_r. by repeat split.
  - rewrite run_cons, enqueued_cons.
    destruct (step_dispatches st ev) as (t1 & ds1 & Ht1 & Ha1 & Hl1 & Hs1 & Hq1 & Hf1).
    destruct (IH (step json_dumps st ev))
      as (t2 & ds2 & Ht2 & Ha2 & Hl2 & Hs2 & Hq2 & Hf2).
    exists (t1 ++ t2), (ds1 ++ ds2).
    split; [by rewrite Ht2, Ht1, app_assoc|].
    split; [by rewrite appended_app, Ha1, Ha2|].
    split; [by rewrite loop_effects_app, Hl1, Hl2, map_app, concat_app|].
    split; [by rewrite sends_app, Hs1, Hs2, map_app, concat_app|].
    split.
    + rewrite map_app, <- app_assoc, Hq2, !app_assoc. by rewrite Hq1.
    + apply Forall_app. split.
      * eapply Forall_impl; [exact Hf1|]. intros d [Hne Hd].
        split; [done|]. exists st. split; [|done]. simpl. apply list_elem_of_here.
      * eapply Forall_impl; [exact Hf2|]. intros d (Hne & s & Hs & Hd).
        split; [done|]. exists s. split; [|done]. simpl.
        by apply list_elem_of_further.
Qed.

(** C2: along any run, the effects of the broadcast loop are a
    sequence of dispatches.  Each dispatch is the pop of a batch
    followed at once by the writes of that batch to the clients listed
    in the registry, of which there is at least one; it happens in a
    state of the run whose queue has that batch at its head.  The
    batches dispatched, in the order of their dispatch, followed by the
    batches still queued, are the batches queued at the start followed
    by the batches the callbacks enqueued, in that order: dispatch is
    first-in first-out and every batch leaves the queue once, when it
    is dispatched.  Only callbacks append: a wake-up of the loop
    appends nothing, whatever the outcome of its writes. *)
Theorem relay_queue_is_fifo evs st :
  let st' := run json_dumps evs st in
  popped (since st st') ++ message_queue st'
  = message_queue st ++ appended (since st st') /\
  popped (trace (run json_dumps evs initial)) `prefix_of` appended (trace (run json_dumps evs initial)) /\
  (forall ok s, appended (since s (broadcast_tick ok s)) = [] /\
                message_queue (broadcast_tick ok s) `suffix_of` message_queue s) /\
  appended (since st st') = enqueued json_dumps evs /\
  exists ds : list dispatch,
    loop_effects (since st st') = concat (map dispatch_effects ds) /\
    sends (since st st') = concat (map dispatch_writes ds) /\
    popped (since st st') = map d_message ds /\
    map d_message ds ++ message_queue st'
    = message_queue st ++ enqueued json_dumps evs /\
    Forall (fun d => d_snapshot d ≠ [] /\
                     exists s, s ∈ visited json_dumps evs st /\ fires_in s d) ds.
Proof.
  cbv zeta. split; [|split; [|split]].
  - destruct (run_fifo evs st) as (t & Ht & Hq).
    by rewrite (since_app _ _ _ Ht).
  - destruct (run_fifo evs initial) as (t & Ht & Hq).
    simpl in Ht, Hq. rewrite Ht. rewrite Hq. by eexists.
  - intros ok s.
    destruct (step_fifo s (Tick ok)) as (t & Ht & Hq). simpl in Ht, Hq.
    destruct (message_queue s) as [|message rest] eqn:Hs.
    { unfold broadcast_tick, since. rewrite Hs, Hs.
      by rewrite drop_all. }
    destruct (decide (clients s = ∅)) as [Hc|Hc].
    { unfold broadcast_tick, since. rewrite Hs.
      rewrite bool_decide_eq_false_2 by (intros E; by apply E).
      by rewrite drop_all, Hs. }
    destruct (tick_dispatch ok s message rest Hs Hc) as (Hq' & Ht' & _).
    rewrite (since_app _ _ _ Ht'). simpl.
    rewrite dispatch_appended, Hq'. split; [done|].
    by exists [message].
  - destruct (run_dispatches evs st) as (t & ds & Ht & Ha & Hl & Hs & Hq & Hf).
    rewrite (since_app _ _ _ Ht). split; [exact Ha|].
    exists ds. repeat split; try done.
    destruct (run_fifo evs st) as (t' & Ht' & Hq').
    rewrite Ht in Ht'. apply app_inv_head in Ht' as <-.
    rewrite <- Ha in Hq. rewrite Hq' in Hq.
    by apply app_inv_tail in Hq.
Qed.

(** *** The handlers as sequences of events *)

Lemma broadcast_messages_run wakeups : forall st,
  broadcast_messages wakeups st = run json_dumps (map Tick wakeups) st.
Proof.
  induction wakeups as [|ok wakeups IH]; intros st; [done|].
  simpl. by rewrite IH.
Qed.

Lemma split_on_length sep a s :
  length (split_on sep (String a s))
  = if Ascii.eqb a sep then S (length (split_on sep s))
    else length (split_on sep s).
Proof.
  simpl. destruct (Ascii.eqb a sep); [done|].
  destruct (split_on sep s) eqn:E; [|done].
  by destruct s as [|b s]; simpl in E; repeat case_match.
Qed.

Lemma split_on_prefix sep p : forall s,
  String.prefix p s = true ->
  (2 <= length (split_on sep p))%nat ->
  (2 <= length (split_on sep s))%nat.
Proof.
  induction p as [|a p IH]; intros s Hp Hlen; [simpl in Hlen; lia|].
  destruct s as [|b s]; [done|]. simpl in Hp.
  destruct (ascii_dec a b) as [<-|]; [|done].
  rewrite split_on_length in Hlen. rewrite split_on_length.
  destruct (Ascii.eqb a sep).
  - destruct (split_on sep s) eqn:E; simpl; [|lia].
    by destruct s as [|c s]; simpl in E; repeat case_match.
  - by apply IH.
Qed.

(** the loop body can only raise for want of an upstream object *)
Lemma on_text_raises data st e :
  on_text data st = Raise e -> active_bybit_ws st = None.
Proof.
  unfold on_text. destruct (String.prefix _ _) eqn:Hp; [|done].
  pose proof (split_on_prefix ":"%char _ _ Hp) as Hlen.
  destruct (split_on ":"%char data !! 1%nat) as [symbol|] eqn:E; simpl.
  - by destruct (active_bybit_ws st).
  - apply lookup_ge_None in E. specialize (Hlen ltac:(simpl; lia)). lia.
Qed.

Lemma disconnect_twice c st : disconnect c (disconnect c st) = disconnect c st.
Proof.
  unfold disconnect, discard_client, set_clients, exit_upstream. simpl.
  destruct (active_bybit_ws st) as [h|]; simpl.
  2: { f_equal. set_solver. }
  case_bool_decide as Hc; simpl.
  { f_equal. set_solver. }
  case_bool_decide as Hc'; simpl.
  { exfalso. apply Hc. set_solver. }
  f_equal. set_solver.
Qed.

Lemma disconnect_stays_closed c st :
  active_bybit_ws st = None -> active_bybit_ws (disconnect c st) = None.
Proof. intros Ha. unfold disconnect. simpl. by rewrite Ha. Qed.

(** once the handler of [c] has ended with the subscription closed,
    its remaining texts change nothing *)
Lemma receive_after_end c texts : forall st,
  active_bybit_ws st = None ->
  disconnect c st = st ->
  run json_dumps (map (Receive c) texts ++ [Disconnect c]) st = st.
Proof.
  induction texts as [|data texts IH]; intros st Ha Hd; [done|].
  simpl. unfold receive. destruct (on_text data st) as [st'|e] eqn:E.
  - destruct (on_text_inv _ _ _ E) as [->|(h & symbol & Hh & _)];
      [by apply IH | congruence].
  - rewrite Hd. by apply IH.
Qed.

(** The handler of a connection that is not interrupted is the run of
    its events: the connect, one receive per text, the disconnect. *)
Lemma websocket_endpoint_run c texts st :
  websocket_endpoint c texts st
  = run json_dumps (Connect c :: map (Receive c) texts ++ [Disconnect c]) st.
Proof.
  unfold websocket_endpoint. rewrite run_cons. simpl step.
  generalize (connect c st). clear st.
  induction texts as [|data texts IH]; intros st; [done|].
  simpl. unfold receive. destruct (on_text data st) as [st'|e] eqn:E.
  - apply IH.
  - symmetry. apply receive_after_end.
    + by eapply disconnect_stays_closed, on_text_raises.
    + apply disconnect_twice.
Qed.

(** ** The upstream subscription *)

Lemma connect_accounted c st : accounted st -> accounted (connect c st).
Proof.
  unfold accounted, connect. simpl.
  destruct (active_bybit_ws st) eqn:Ha; simpl; intros E; rewrite ?Ha, E; simpl.
  - done.
  - set_solver.
Qed.

Lemma disconnect_accounted c st : accounted st -> accounted (disconnect c st).
Proof.
  unfold accounted, disconnect. simpl.
  destruct (active_bybit_ws st) eqn:Ha; simpl; intros E.
  - case_bool_decide; simpl; rewrite ?Ha, E; simpl; set_solver.
  - by rewrite Ha.
Qed.

Lemma step_accounted st ev : accounted st -> accounted (step json_dumps st ev).
Proof.
  destruct ev as [message|ok|c|c data|c]; simpl.
  - unfold accounted, bybit_callback.
    by destruct (normalize json_dumps message).
  - unfold accounted, broadcast_tick.
    destruct (message_queue st) as [|message rest]; [done|].
    case_bool_decide; [|done].
    intros E.
    by destruct (dispatch_upstream ok message (elements (clients st))
                   (set_queue rest (emit (Popleft message) st))) as [-> ->].
  - apply connect_accounted.
  - unfold receive. destruct (on_text data st) as [st'|e] eqn:E.
    + by destruct (on_text_inv _ _ _ E) as [->|(h & symbol & _ & ->)].
    + apply disconnect_accounted.
  - apply disconnect_accounted.
Qed.

Lemma run_accounted evs : forall st, accounted st -> accounted (run json_dumps evs st).
Proof.
  induction evs as [|ev evs IH]; intros st Hst; [done|].
  rewrite run_cons. by apply IH, step_accounted.
Qed.

Lemma initial_accounted : accounted initial.
Proof. done. Qed.

Lemma connect_not_empty c st : clients (connect c st) ≠ ∅.
Proof.
  unfold connect. simpl.
  destruct (active_bybit_ws st); simpl; set_solver.
Qed.

Lemma connect_is_open c st : is_Some (active_bybit_ws (connect c st)).
Proof.
  unfold connect. simpl.
  destruct (active_bybit_ws st) eqn:Ha; simpl; [rewrite Ha|]; eauto.
Qed.

Lemma disconnect_closed_when_empty c st : closed_when_empty (disconnect c st).
Proof.
  unfold closed_when_empty, disconnect. simpl.
  destruct (active_bybit_ws st) eqn:Ha; simpl; [|done].
  case_bool_decide; simpl; [done|]. intros E. done.
Qed.

Lemma lifecycle_closed_when_empty evs : forall st,
  Forall (fun ev => is_lifecycle ev = true) evs ->
  closed_when_empty st -> closed_when_empty (run json_dumps evs st).
Proof.
  induction evs as [|ev evs IH]; intros st Hevs Hst; [done|].
  inversion Hevs as [|? ? Hev Hrest]; subst.
  rewrite run_cons. apply IH; [done|].
  destruct ev; simpl in *; try discriminate.
  - intros E. by apply connect_not_empty in E.
  - apply disconnect_closed_when_empty.
Qed.

(** C6: after any sequence of connects and disconnects from the start
    of the service, an empty registry goes with no subscription; the
    connect that finds the registry empty leaves one subscription
    open, and the disconnect of the only registered client leaves none. *)
Theorem subscription_follows_registry evs :
  Forall (fun ev => is_lifecycle ev = true) evs ->
  let st := run json_dumps evs initial in
  (clients st = ∅ -> active_bybit_ws st = None /\ kline_streams st = ∅) /\
  (forall c, clients st = ∅ ->
     clients (connect c st) = {[c]} /\
     exists h, active_bybit_ws (connect c st) = Some h /\
               kline_streams (connect c st) = {[h]}) /\
  (forall c, clients st = {[c]} ->
     clients (disconnect c st) = ∅ /\
     active_bybit_ws (disconnect c st) = None /\
     kline_streams (disconnect c st) = ∅).
Proof.
  intros Hevs st.
  assert (Hacc : accounted st) by apply run_accounted, initial_accounted.
  assert (Hcl : closed_when_empty st)
    by (apply lifecycle_closed_when_empty; done).
  split; [|split].
  - intros E. specialize (Hcl E). split; [done|].
    unfold accounted in Hacc. by rewrite Hacc, Hcl.
  - intros c E.
    pose proof (connect_accounted c st Hacc) as Hacc'.
    destruct (connect_is_open c st) as [h Hh].
    split.
    + unfold connect. simpl. destruct (active_bybit_ws st); simpl; set_solver.
    + exists h. split; [done|]. unfold accounted in Hacc'.
      by rewrite Hacc', Hh.
  - intros c E.
    pose proof (disconnect_accounted c st Hacc) as Hacc'.
    pose proof (disconnect_closed_when_empty c st) as Hcl'.
    assert (Hempty : clients (disconnect c st) = ∅).
    { unfold disconnect. simpl. destruct (active_bybit_ws st); simpl;
        [case_bool_decide; simpl|]; set_solver. }
    split; [done|]. specialize (Hcl' Hempty). split; [done|].
    unfold accounted in Hacc'. by rewrite Hacc', Hcl'.
Qed.

(** C7: after any run of the service the live kline subscriptions are
    at most one, the one held in [active_bybit_ws]; a connect that
    finds a subscription open keeps it and creates no upstream object. *)
Theorem at_most_one_kline_subscription evs :
  let st := run json_dumps evs initial in
  (size (kline_streams st) <= 1)%nat /\
  kline_streams st = live_of (active_bybit_ws st) /\
  (forall c h, active_bybit_ws st = Some h ->
     active_bybit_ws (connect c st) = Some h /\
     kline_streams (connect c st) = kline_streams st /\
     next_handle (connect c st) = next_handle st).
Proof.
  intros st.
  assert (Hacc : accounted st) by apply run_accounted, initial_accounted.
  split; [|split; [exact Hacc|]].
  - unfold accounted in Hacc. rewrite Hacc.
    destruct (active_bybit_ws st); unfold live_of.
    + by rewrite size_singleton.
    + rewrite size_empty. lia.
  - intros c h Ha. unfold connect. simpl. by rewrite Ha.
Qed.

(** ** The normalizer *)

Lemma for_each_Forall2 {A B : Type} (body : A -> result B) xs ys :
  Forall2 (fun x y => body x = Ok y) xs ys -> for_each body xs = Ok ys.
Proof.
  induction 1 as [|x y xs ys Hxy _ IH]; simpl; [done|].
  by rewrite Hxy; simpl; rewrite IH.
Qed.

Lemma for_each_Exists {A B : Type} (body : A -> result B) xs :
  Exists (fun x => exists e, body x = Raise e) xs ->
  exists e, for_each body xs = Raise e.
Proof.
  induction 1 as [x xs [e He]|x xs _ [e IH]]; simpl.
  - exists e. by rewrite He.
  - destruct (body x) as [y|e']; simpl; [|by eauto].
    exists e. by rewrite IH.
Qed.

Lemma convert_message_reads m k :
  reads_as m k -> convert_message m = Ok (candle k).
Proof.
  intros (Hc & Hh & Hl & Ho & Ht & Hs & He & Hf).
  unfold convert_message.
  rewrite Hc; simpl; rewrite Hh; simpl; rewrite Hl; simpl; rewrite Ho; simpl.
  rewrite Ht; simpl; rewrite Hs; simpl; rewrite He; simpl; rewrite Hf; simpl.
  reflexivity.
Qed.

Lemma bad_field_raises m key :
  is_missing m key || is_non_numeric m key
  = match float_field m key with
    | Ok _ => false
    | Raise _ => true
    end.
Proof.
  unfold is_missing, is_non_numeric, float_field.
  destruct (getitem m key) as [v|e]; simpl; [|done].
  by destruct (py_float v).
Qed.

Lemma malformed_raises m :
  malformed m = true -> exists e, convert_message m = Raise e.
Proof.
  unfold malformed, numeric_fields, existsb.
  rewrite !bad_field_raises. unfold is_missing, convert_message.
  destruct (float_field m "close"); simpl; [|by eauto].
  destruct (float_field m "high"); simpl; [|by eauto].
  destruct (float_field m "low"); simpl; [|by eauto].
  destruct (float_field m "open"); simpl; [|by eauto].
  destruct (float_field m "timestamp"); simpl; [|by eauto].
  destruct (float_field m "start"); simpl; [|by eauto].
  destruct (float_field m "end"); simpl; [|by eauto].
  destruct (getitem m "confirm"); simpl; [discriminate|by eauto].
Qed.

Lemma normalize_well_formed message data ks :
  getitem message "data" = Ok (PList data) ->
  Forall2 reads_as data ks ->
  normalize json_dumps message = Ok (json_dumps (PList (map candle ks))).
Proof.
  intros Hd Hks. unfold normalize. rewrite Hd. simpl.
  rewrite (for_each_Forall2 convert_message data (map candle ks)); [done|].
  apply Forall2_fmap_r.
  eapply Forall2_impl; [exact Hks|]. apply convert_message_reads.
Qed.

(** C3: a payload whose records all carry the eight fields, the seven
    numeric ones readable by [float], is appended to the queue as one
    serialized batch; the batch has one candle per record, in the
    order of the records; each candle holds the four parsed prices,
    [time], [start] and [end] equal to the parsed millisecond value
    divided by 1000 plus 10800, and [confirm] as it came. *)
Theorem normalizer_converts_each_record message data ks st :
  getitem message "data" = Ok (PList data) ->
  Forall2 reads_as data ks ->
  let batch := map candle ks in
  let st' := bybit_callback json_dumps message st in
  message_queue st' = message_queue st ++ [json_dumps (PList batch)] /\
  trace st' = trace st ++ [Append (json_dumps (PList batch))] /\
  length batch = length data /\
  (forall i m, data !! i = Some m ->
     exists k, reads_as m k /\ batch !! i = Some (candle k)).
Proof.
  intros Hd Hks batch st'. subst st'. unfold bybit_callback.
  rewrite (normalize_well_formed message data ks Hd Hks). fold batch.
  split; [done|]. split; [done|]. split.
  - unfold batch. rewrite length_map. symmetry. by eapply Forall2_length.
  - intros i m Hi.
    destruct (Forall2_lookup_l _ _ _ _ _ Hks Hi) as (k & Hk & Hmk).
    exists k. split; [done|]. unfold batch.
    by rewrite list_lookup_fmap, Hk.
Qed.

(** C4: a payload with a malformed record leaves the queue as it was:
    the callback returns with the state unchanged but for one logged
    error, nothing is appended, and a later payload is handled as if
    the malformed one had not come. *)
Theorem malformed_record_drops_the_batch message data st :
  getitem message "data" = Ok (PList data) ->
  Exists (fun m => malformed m = true) data ->
  let st' := bybit_callback json_dumps message st in
  message_queue st' = message_queue st /\
  (exists e, st' = emit (LogCallbackError e) st) /\
  appended (since st st') = [] /\
  (forall later,
     message_queue (bybit_callback json_dumps later st')
     = message_queue (bybit_callback json_dumps later st)).
Proof.
  intros Hd Hbad st'. subst st'.
  assert (exists e, normalize json_dumps message = Raise e) as [e He].
  { unfold normalize. rewrite Hd. simpl.
    destruct (for_each_Exists convert_message data) as [e He].
    - eapply Exists_impl; [exact Hbad|]. apply malformed_raises.
    - exists e. by rewrite He. }
  assert (Hst : bybit_callback json_dumps message st
                = emit (LogCallbackError e) st)
    by (unfold bybit_callback; by rewrite He).
  rewrite Hst.
  split; [done|]. split; [by exists e|]. split.
  - by rewrite (since_app st _ [LogCallbackError e]).
  - intros later. unfold bybit_callback.
    by destruct (normalize json_dumps later).
Qed.

(** *** The order of a candle's times *)

(** When the conversion of a time is monotone, a raw record with
    [start <= timestamp] and [start <= end] is turned into a candle
    with [start <= time] and [start <= end]. *)
Lemma monotone_conversion_keeps_order m k :
  conversion_monotone ->
  reads_as m k ->
  fle (k_start k) (k_timestamp k) = true ->
  fle (k_start k) (k_end k) = true ->
  exists c start time end_,
    convert_message m = Ok c /\
    getitem c "start" = Ok (PFloat start) /\
    getitem c "time" = Ok (PFloat time) /\
    getitem c "end" = Ok (PFloat end_) /\
    fle start time = true /\
    fle start end_ = true.
Proof.
  intros Hmono Hk Hst Hse.
  exists (candle k), (ms_to_local (k_start k)), (ms_to_local (k_timestamp k)),
         (ms_to_local (k_end k)).
  split; [by apply convert_message_reads|].
  repeat split; try reflexivity; by apply Hmono.
Qed.

End RelayFacts.

(** ** Rounding at binary64

    [x / 1000] and [z + 10800] are each the rounding, to nearest and
    ties to even, of the exact quotient and the exact sum; rounding is
    monotone, so the conversion of a time is. *)

Lemma weight_pos e : -1074 <= e -> 0 < weight e.
Proof. intros He. unfold weight. apply Z.pow_pos_nonneg; lia. Qed.

Lemma weight_add e k : -1074 <= e -> 0 <= k -> weight (e + k) = 2 ^ k * weight e.
Proof.
  intros He Hk. unfold weight.
  replace (e + k + 1074) with (k + (e + 1074)) by lia.
  apply Z.pow_add_r; lia.
Qed.

Lemma fexp_eq e : fexp prec emax e = Z.max (e - 53) (-1074).
Proof. reflexivity. Qed.

Lemma digits2_bounds p :
  2 ^ (Zpos (digits2_pos p) - 1) <= Zpos p < 2 ^ Zpos (digits2_pos p).
Proof.
  induction p as [q IH|q IH|]; cbn [digits2_pos].
  - rewrite Pos2Z.inj_succ. change (Zpos q~1) with (2 * Zpos q + 1).
    replace (Z.succ (Zpos (digits2_pos q)) - 1) with (Z.succ (Zpos (digits2_pos q) - 1)) by lia.
    rewrite !Z.pow_succ_r by lia.
    revert IH. generalize (2 ^ (Zpos (digits2_pos q) - 1)), (2 ^ Zpos (digits2_pos q)). lia.
  - rewrite Pos2Z.inj_succ. change (Zpos q~0) with (2 * Zpos q).
    replace (Z.succ (Zpos (digits2_pos q)) - 1) with (Z.succ (Zpos (digits2_pos q) - 1)) by lia.
    rewrite !Z.pow_succ_r by lia.
    revert IH. generalize (2 ^ (Zpos (digits2_pos q) - 1)), (2 ^ Zpos (digits2_pos q)). lia.
  - simpl. lia.
Qed.

Lemma shr_1_located P a mrs :
  0 < a -> located P a mrs -> located P (2 * a) (shr_1 mrs).
Proof.
  intros Ha. destruct mrs as [m r s]. unfold located. cbn [shr_m shr_r shr_s shr_1].
  intros (Hm & Hb & Hl).
  destruct m as [|[q|q|]|q]; [| | | |lia].
  - destruct r, s; cbn [orb shr_m shr_r shr_s]; lia.
  - change (Zpos q~1) with (2 * Zpos q + 1) in *.
    destruct r, s; cbn [orb shr_m shr_r shr_s]; lia.
  - change (Zpos q~0) with (2 * Zpos q) in *.
    destruct r, s; cbn [orb shr_m shr_r shr_s]; lia.
  - destruct r, s; cbn [orb shr_m shr_r shr_s]; lia.
Qed.

Lemma iter_pos_located p : forall P a mrs,
  0 < a -> located P a mrs ->
  located P (2 ^ Zpos p * a) (SpecFloat.iter_pos shr_1 p mrs).
Proof.
  induction p as [q IH|q IH|]; intros P a mrs Ha Hl; cbn [SpecFloat.iter_pos].
  - change (Zpos q~1) with (2 * Zpos q + 1).
    replace (2 ^ (2 * Zpos q + 1) * a) with (2 ^ Zpos q * (2 ^ Zpos q * (2 * a))).
    + assert (0 < 2 ^ Zpos q) by (apply Z.pow_pos_nonneg; lia).
      apply IH; [nia|]. apply IH; [lia|]. by apply shr_1_located.
    + rewrite Z.pow_add_r, Z.pow_1_r by lia.
      replace (2 * Zpos q) with (Zpos q + Zpos q) by lia.
      rewrite Z.pow_add_r by lia. ring.
  - change (Zpos q~0) with (2 * Zpos q).
    replace (2 ^ (2 * Zpos q) * a) with (2 ^ Zpos q * (2 ^ Zpos q * a)).
    + assert (0 < 2 ^ Zpos q) by (apply Z.pow_pos_nonneg; lia).
      apply IH; [nia|]. by apply IH.
    + replace (2 * Zpos q) with (Zpos q + Zpos q) by lia.
      rewrite Z.pow_add_r by lia. ring.
  - rewrite Z.pow_1_r. by apply shr_1_located.
Qed.

Lemma round_nearest_even_spec P a mrs :
  0 < a -> located P a mrs ->
  0 <= round_nearest_even (shr_m mrs) (loc_of_shr_record mrs) /\
  nearest_even P a (round_nearest_even (shr_m mrs) (loc_of_shr_record mrs)).
Proof.
  intros Ha. destruct mrs as [m r s]. unfold located, nearest_even.
  cbn [shr_m shr_r shr_s loc_of_shr_record].
  intros (Hm & Hb & Hl).
  destruct r, s; cbn [round_nearest_even].
  - split; [lia|]. split; lia.
  - destruct (Z.even m) eqn:Hev.
    + split; [lia|]. split; [lia|done].
    + split; [lia|]. split; [lia|]. intros _.
      replace (m + 1) with (Z.succ m) by lia.
      rewrite Z.even_succ, <- Z.negb_even, Hev. done.
  - split; [lia|]. split; lia.
  - split; [lia|]. split; lia.
Qed.

Lemma shr_located mrs e k P D :
  0 < D -> -1074 <= e -> 0 <= k ->
  located P (D * weight e) mrs ->
  located P (D * weight (e + k)) (fst (shr mrs e k)) /\
  snd (shr mrs e k) = e + k.
Proof.
  intros HD He Hk Hl. destruct k as [|p|p]; [| |lia]; cbn [shr fst snd].
  - by rewrite Z.add_0_r.
  - split; [|done]. rewrite weight_add by lia.
    replace (D * (2 ^ Zpos p * weight e)) with (2 ^ Zpos p * (D * weight e)) by ring.
    apply iter_pos_located; [|done].
    pose proof (weight_pos e He). nia.
Qed.

Lemma pow2_lt_inv a b : 0 <= b -> 2 ^ a < 2 ^ b -> a < b.
Proof. intros Hb H. apply (Z.pow_lt_mono_r_iff 2); [lia|done|done]. Qed.

Lemma pow2_le a b : 0 <= a <= b -> 2 ^ a <= 2 ^ b.
Proof. intros H. apply Z.pow_le_mono_r; lia. Qed.

Lemma binade_of_digits mx ex P D :
  0 < D -> 0 <= mx -> -1074 <= ex ->
  mx * (D * weight ex) <= P < (mx + 1) * (D * weight ex) ->
  ex <= fexp prec emax (Zdigits2 mx + ex) ->
  binade P D (fexp prec emax (Zdigits2 mx + ex)).
Proof.
  intros HD Hm He HP. rewrite fexp_eq. intros Hprec. unfold binade.
  pose proof (weight_pos ex He) as Hw.
  assert (Ha : 0 < D * weight ex) by nia.
  destruct mx as [|p|p]; [| |lia].
  - cbn [Zdigits2] in *.
    assert (Z.max (0 + ex - 53) (-1074) = ex) as -> by lia.
    split; [lia|]. split; [lia|].
    revert HP Ha. generalize (D * weight ex). intros a HP Ha.
    change (2 ^ 53) with 9007199254740992. lia.
  - cbn [Zdigits2] in *.
    pose proof (digits2_bounds p) as Hd.
    set (d := Zpos (digits2_pos p)) in *.
    assert (0 < d) by (unfold d; lia).
    destruct (Z.le_gt_cases (-1074) (d + ex - 53)) as [Hn|Hs].
    + rewrite Z.max_l in * by lia.
      replace (d + ex - 53) with (ex + (d - 53)) by lia.
      rewrite weight_add by lia.
      assert (E52 : 2 ^ 52 * 2 ^ (d - 53) = 2 ^ (d - 1)).
      { rewrite <- Z.pow_add_r by lia. f_equal. lia. }
      assert (E53 : 2 ^ 53 * 2 ^ (d - 53) = 2 ^ d).
      { rewrite <- Z.pow_add_r by lia. f_equal. lia. }
      split; [lia|]. split.
      * intros _.
        replace (2 ^ 52 * (D * (2 ^ (d - 53) * weight ex)))
          with (2 ^ 52 * 2 ^ (d - 53) * (D * weight ex)) by ring.
        rewrite E52. nia.
      * replace (2 ^ 53 * (D * (2 ^ (d - 53) * weight ex)))
          with (2 ^ 53 * 2 ^ (d - 53) * (D * weight ex)) by ring.
        rewrite E53. nia.
    + rewrite Z.max_r in * by lia.
      assert (ex = -1074) as -> by lia.
      split; [lia|]. split; [lia|].
      assert (2 ^ d <= 2 ^ 53) by (apply pow2_le; lia).
      nia.
Qed.

Lemma renormalize s n e :
  -1074 <= e -> 0 <= n <= 2 ^ 53 -> (-1074 < e -> 2 ^ 52 <= n) ->
  (let '(mrs, e') := shr_fexp prec emax n e loc_Exact in
   match shr_m mrs with
   | 0 => S754_zero s
   | Zpos m => if e' <=? emax - prec then S754_finite s m e' else S754_infinity s
   | Zneg _ => S754_nan
   end) = finish s n e.
Proof.
  intros He Hn Hnorm. unfold shr_fexp, finish. rewrite fexp_eq.
  destruct (Z.eqb_spec n (2 ^ 53)) as [->|Hne].
  - change (Zdigits2 (2 ^ 53)) with 54.
    replace (Z.max (54 + e - 53) (-1074) - e) with 1 by lia.
    reflexivity.
  - destruct n as [|p|p]; [| |lia].
    + cbn [Zdigits2].
      destruct (Z.max (0 + e - 53) (-1074) - e) as [|k|k] eqn:Ek; [done|lia|done].
    + cbn [Zdigits2].
      pose proof (digits2_bounds p) as Hd.
      set (d := Zpos (digits2_pos p)) in *.
      assert (0 < d) by (unfold d; lia).
      assert (d <= 53).
      { assert (d - 1 < 53); [|lia]. apply pow2_lt_inv; lia. }
      assert (-1074 < e -> 52 < d).
      { intros Hlt. apply pow2_lt_inv; [lia|]. specialize (Hnorm Hlt). lia. }
      assert (Z.max (d + e - 53) (-1074) - e = 0) as -> by lia.
      reflexivity.
Qed.

Lemma nearest_bounds P D n e :
  0 < D -> binade P D e -> nearest_even P (D * weight e) n ->
  n <= 2 ^ 53 /\ (-1074 < e -> 2 ^ 52 <= n).
Proof.
  intros HD (He & Hlo & Hhi) [Hn _].
  pose proof (weight_pos e He) as Hw.
  assert (Ha : 0 < D * weight e) by nia.
  revert Hlo Hhi Hn Ha. generalize (D * weight e). intros a Hlo Hhi Hn Ha.
  change (2 ^ 53) with 9007199254740992 in *.
  change (2 ^ 52) with 4503599627370496 in *.
  split; [|intros Hlt; specialize (Hlo Hlt)]; nia.
Qed.

Lemma binary_round_aux_spec s mx ex lx P D :
  0 < D -> 0 <= mx -> -1074 <= ex ->
  located P (D * weight ex) (shr_record_of_loc mx lx) ->
  ex <= fexp prec emax (Zdigits2 mx + ex) ->
  exists n e,
    binary_round_aux prec emax s mx ex lx = finish s n e /\ rounding P D n e.
Proof.
  intros HD Hm He Hl Hprec.
  assert (Hm' : shr_m (shr_record_of_loc mx lx) = mx)
    by (by destruct lx as [|[]]).
  assert (Hb : binade P D (fexp prec emax (Zdigits2 mx + ex))).
  { apply binade_of_digits; try done.
    destruct Hl as (_ & HP & _). by rewrite Hm' in HP. }
  unfold binary_round_aux, shr_fexp at 1.
  set (e' := fexp prec emax (Zdigits2 mx + ex)) in *.
  destruct (shr_located (shr_record_of_loc mx lx) ex (e' - ex) P D)
    as [Hl' He']; [done|done|lia|done|].
  replace (ex + (e' - ex)) with e' in * by lia.
  destruct (shr (shr_record_of_loc mx lx) ex (e' - ex)) as [mrs e1].
  cbn [fst snd] in *. subst e1.
  assert (He'' : -1074 <= e') by apply Hb.
  pose proof (weight_pos e' He'') as Hw.
  destruct (round_nearest_even_spec P (D * weight e') mrs) as [Hn Hne];
    [nia|done|].
  set (n := round_nearest_even (shr_m mrs) (loc_of_shr_record mrs)) in *.
  destruct (nearest_bounds P D n e' HD Hb Hne) as [Hle Hge].
  exists n, e'. split; [|done].
  by apply renormalize.
Qed.

Lemma weight_lt e1 e2 : -1074 <= e1 < e2 -> 2 * weight e1 <= weight e2.
Proof.
  intros He. replace e2 with (e1 + (e2 - e1)) by lia.
  rewrite weight_add by lia.
  assert (2 ^ 1 <= 2 ^ (e2 - e1)) by (apply pow2_le; lia).
  pose proof (weight_pos e1). change (2 ^ 1) with 2 in *. nia.
Qed.

(** two quotients within half a step of two integers, the lesser
    quotient by the greater integer: the integers are neighbours and
    both quotients lie half-way *)
Lemma nearest_crossing A x1 x2 n1 n2 :
  0 < A -> x1 <= x2 ->
  2 * (n1 * A - x1) <= A -> 2 * (x2 - n2 * A) <= A -> n2 < n1 ->
  n1 = n2 + 1 /\ 2 * (n1 * A - x1) = A /\ 2 * (x2 - n2 * A) = A.
Proof.
  intros HA Hx H1 H2 Hn.
  assert (Hk : (n1 - n2 - 1) * A <= 0) by lia.
  assert (n1 = n2 + 1) as ->.
  { destruct (Z.le_gt_cases (n1 - n2 - 1) 0) as [|Hgt]; [lia|exfalso].
    assert (0 < (n1 - n2 - 1) * A) by (apply Z.mul_pos_pos; lia). lia. }
  lia.
Qed.

Lemma rounding_mono P1 D1 n1 e1 P2 D2 n2 e2 :
  0 < D1 -> 0 < D2 ->
  rounding P1 D1 n1 e1 -> rounding P2 D2 n2 e2 ->
  P1 * D2 <= P2 * D1 ->
  e1 < e2 \/ (e1 = e2 /\ n1 <= n2).
Proof.
  intros HD1 HD2 ((He1 & Hlo1 & Hhi1) & Hn1 & Hr1 & Ht1)
         ((He2 & Hlo2 & Hhi2) & Hn2 & Hr2 & Ht2) HP.
  pose proof (weight_pos e1 He1) as Hw1.
  pose proof (weight_pos e2 He2) as Hw2.
  destruct (Z.lt_trichotomy e1 e2) as [Hlt|[<-|Hgt]]; [by left| |exfalso].
  - right. split; [done|].
    destruct (Z.le_gt_cases n1 n2) as [|Hgt]; [done|exfalso].
    clear Hlo1 Hhi1 Hlo2 Hhi2.
    set (w := weight e1) in *.
    assert (HA : 0 < D1 * D2 * w) by (repeat apply Z.mul_pos_pos; done).
    assert (S1 : 2 * (n1 * (D1 * D2 * w) - P1 * D2) <= D1 * D2 * w).
    { replace (2 * (n1 * (D1 * D2 * w) - P1 * D2))
        with (2 * (n1 * (D1 * w) - P1) * D2) by ring.
      replace (D1 * D2 * w) with (D1 * w * D2) by ring.
      apply Z.mul_le_mono_nonneg_r; lia. }
    assert (S2 : 2 * (P2 * D1 - n2 * (D1 * D2 * w)) <= D1 * D2 * w).
    { replace (2 * (P2 * D1 - n2 * (D1 * D2 * w)))
        with (2 * (P2 - n2 * (D2 * w)) * D1) by ring.
      replace (D1 * D2 * w) with (D2 * w * D1) by ring.
      apply Z.mul_le_mono_nonneg_r; lia. }
    destruct (nearest_crossing _ _ _ _ _ HA HP S1 S2 Hgt) as (N & T1 & T2).
    assert (T1' : 2 * (n1 * (D1 * w) - P1) = D1 * w).
    { apply (Z.mul_cancel_r _ _ D2); [lia|].
      transitivity (2 * (n1 * (D1 * D2 * w) - P1 * D2)); [ring|].
      rewrite T1. ring. }
    assert (T2' : 2 * (P2 - n2 * (D2 * w)) = D2 * w).
    { apply (Z.mul_cancel_r _ _ D1); [lia|].
      transitivity (2 * (P2 * D1 - n2 * (D1 * D2 * w))); [ring|].
      rewrite T2. ring. }
    assert (Z.even n1 = true) by (apply Ht1; lia).
    assert (Hev : Z.even n2 = true) by (apply Ht2; lia).
    subst n1. replace (n2 + 1) with (Z.succ n2) in * by lia.
    rewrite Z.even_succ, <- Z.negb_even, Hev in *. done.
  - assert (Hlo := Hlo1 ltac:(lia)).
    pose proof (weight_lt e2 e1 ltac:(lia)) as Hww.
    clear Hr1 Ht1 Hr2 Ht2 Hlo1 Hlo2 Hhi1.
    change (2 ^ 53) with (2 ^ 52 * 2) in Hhi2.
    assert (H52 : 0 < 2 ^ 52) by done.
    revert Hlo Hhi2 H52. generalize (2 ^ 52). intros c Hlo Hhi2 Hc.
    assert (S1 : c * (D1 * weight e1) * D2 <= P1 * D2)
      by (apply Z.mul_le_mono_nonneg_r; lia).
    assert (S2 : P2 * D1 < c * 2 * (D2 * weight e2) * D1)
      by (apply Z.mul_lt_mono_pos_r; lia).
    assert (S3 : c * D1 * D2 * (2 * weight e2) <= c * D1 * D2 * weight e1).
    { apply Z.mul_le_mono_nonneg_l; [|done].
      repeat apply Z.mul_nonneg_nonneg; lia. }
    replace (c * (D1 * weight e1) * D2) with (c * D1 * D2 * weight e1) in S1 by ring.
    replace (c * 2 * (D2 * weight e2) * D1) with (c * D1 * D2 * (2 * weight e2)) in S2 by ring.
    lia.
Qed.

(** the mantissa and exponent of a double in the format *)
Lemma bounded_inv m e :
  bounded prec emax m e = true ->
  -1074 <= e <= 971 /\ Zpos m < 2 ^ 53 /\ (-1074 < e -> 2 ^ 52 <= Zpos m).
Proof.
  unfold bounded, canonical_mantissa. rewrite fexp_eq.
  intros [Hc He%Z.leb_le]%andb_prop. apply Z.eqb_eq in Hc.
  change (emax - prec) with 971 in He.
  pose proof (digits2_bounds m) as Hd.
  set (d := Zpos (digits2_pos m)) in *.
  assert (0 < d) by (unfold d; lia).
  split; [lia|]. split.
  - assert (2 ^ d <= 2 ^ 53) by (apply pow2_le; lia). lia.
  - intros Hlt. assert (d = 53) as Ed by lia. rewrite Ed in Hd.
    change (53 - 1) with 52 in Hd. lia.
Qed.

Lemma bounded_intro m e :
  -1074 <= e <= 971 -> Zpos m < 2 ^ 53 -> (-1074 < e -> 2 ^ 52 <= Zpos m) ->
  bounded prec emax m e = true.
Proof.
  intros He Hm Hn. unfold bounded, canonical_mantissa. rewrite fexp_eq.
  change (emax - prec) with 971.
  apply andb_true_intro. split; [|apply Z.leb_le; lia]. apply Z.eqb_eq.
  pose proof (digits2_bounds m) as Hd.
  set (d := Zpos (digits2_pos m)) in *.
  assert (0 < d) by (unfold d; lia).
  assert (d <= 53).
  { assert (d - 1 < 53); [|lia]. apply pow2_lt_inv; lia. }
  assert (-1074 < e -> 52 < d).
  { intros Hlt. apply pow2_lt_inv; [lia|]. specialize (Hn Hlt). lia. }
  lia.
Qed.

Lemma weight_le e1 e2 : -1074 <= e1 <= e2 -> weight e1 <= weight e2.
Proof. intros H. unfold weight. apply pow2_le. lia. Qed.

Lemma weight_succ e : -1074 <= e -> weight (e + 1) = 2 * weight e.
Proof. intros He. by rewrite weight_add by lia. Qed.

(** a double of the format is below [2^2098] units *)
Lemma bounded_units m e :
  bounded prec emax m e = true -> 0 < Zpos m * weight e < 2 ^ 2098.
Proof.
  intros (He & Hm & _)%bounded_inv.
  pose proof (weight_pos e ltac:(lia)) as Hw.
  pose proof (weight_le e 971 ltac:(lia)) as Hle.
  change (weight 971) with (2 ^ 2045) in Hle.
  assert (2 ^ 53 * 2 ^ 2045 = 2 ^ 2098) as <- by (by rewrite <- Z.pow_add_r).
  split; [lia|]. 
  assert (0 < 2 ^ 2045) by lia.
  assert (Zpos m * weight e <= Zpos m * 2 ^ 2045) by nia.
  assert (Zpos m * 2 ^ 2045 < 2 ^ 53 * 2 ^ 2045) by nia.
  lia.
Qed.

Lemma canonical_lt m1 e1 m2 e2 :
  bounded prec emax m1 e1 = true -> bounded prec emax m2 e2 = true ->
  e1 < e2 -> Zpos m1 * weight e1 < Zpos m2 * weight e2.
Proof.
  intros (He1 & Hm1 & _)%bounded_inv (He2 & _ & Hn2)%bounded_inv Hlt.
  specialize (Hn2 ltac:(lia)).
  pose proof (weight_pos e1 ltac:(lia)).
  pose proof (weight_lt e1 e2 ltac:(lia)).
  change (2 ^ 53) with 9007199254740992 in *.
  change (2 ^ 52) with 4503599627370496 in *.
  nia.
Qed.

Lemma top_pos : 0 < 2 ^ 2098.
Proof. by apply Z.pow_pos_nonneg. Qed.

Lemma units_bound x :
  valid_binary x = true -> - 2 ^ 2098 <= units x <= 2 ^ 2098.
Proof.
  pose proof top_pos.
  destruct x as [s|s| |s m e]; cbn [units SpecFloat.valid_binary].
  - lia.
  - destruct s; lia.
  - lia.
  - intros Hb%bounded_units. destruct s; lia.
Qed.

Lemma units_finite_lt x :
  valid_binary x = true -> finite_or_zero x = true ->
  - 2 ^ 2098 < units x < 2 ^ 2098.
Proof.
  pose proof top_pos.
  destruct x as [s|s| |s m e]; cbn [units SpecFloat.valid_binary finite_or_zero];
    try done; try lia.
  intros Hb%bounded_units _. destruct s; lia.
Qed.

(** on the doubles, [<=] is the order of the values *)
Lemma SFleb_units x y :
  valid_binary x = true -> valid_binary y = true ->
  is_number x = true -> is_number y = true ->
  SFleb x y = true <-> units x <= units y.
Proof.
  intros Hx Hy Nx Ny.
  pose proof top_pos as P2098.
  destruct x as [sx|sx| |sx mx ex], y as [sy|sy| |sy my ey]; try done;
    cbn [SpecFloat.valid_binary] in Hx, Hy; unfold SFleb; cbn [SFcompare units];
    try (pose proof (bounded_units _ _ Hx)); try (pose proof (bounded_units _ _ Hy));
    try (destruct sx); try (destruct sy); try (split; (done || lia)).
  - destruct (Z.compare_spec ex ey) as [->|Hlt|Hgt].
    + rewrite Pos.compare_cont_spec. cbn [Pos.switch_Eq].
      pose proof (weight_pos ey ltac:(apply bounded_inv in Hy; lia)).
      destruct (Pos.compare_spec mx my) as [->|Hm|Hm]; cbn [CompOpp];
        split; (done || nia).
    + pose proof (canonical_lt _ _ _ _ Hx Hy Hlt). split; (done || lia).
    + pose proof (canonical_lt _ _ _ _ Hy Hx Hgt). split; (done || lia).
  - destruct (Z.compare_spec ex ey) as [->|Hlt|Hgt].
    + rewrite Pos.compare_cont_spec. cbn [Pos.switch_Eq].
      pose proof (weight_pos ey ltac:(apply bounded_inv in Hy; lia)).
      destruct (Pos.compare_spec mx my) as [->|Hm|Hm];
        split; (done || nia).
    + pose proof (canonical_lt _ _ _ _ Hx Hy Hlt). split; (done || lia).
    + pose proof (canonical_lt _ _ _ _ Hy Hx Hgt). split; (done || lia).
Qed.

(** [finish] builds a double of the format, with the value [finished] *)
Lemma finish_spec s n e :
  -1074 <= e -> 0 <= n <= 2 ^ 53 -> (-1074 < e -> 2 ^ 52 <= n) ->
  valid_binary (finish s n e) = true /\
  is_number (finish s n e) = true /\
  units (finish s n e) = if s then - finished n e else finished n e.
Proof.
  intros He Hn Hnorm. unfold finish, finished.
  pose proof (weight_pos e He) as Hw.
  destruct (Z.eqb_spec n (2 ^ 53)) as [->|Hne].
  - change (pack s (2 ^ 52) (e + 1))
      with (if e + 1 <=? 971 then S754_finite s 4503599627370496 (e + 1)
            else S754_infinity s).
    destruct (Z.leb_spec (e + 1) 971) as [Hle|Hgt].
    + cbn [SpecFloat.valid_binary is_number units].
      split; [|split; [done|]].
      * apply bounded_intro; [lia|done|done].
      * rewrite weight_succ by done.
        change (2 ^ 53) with 9007199254740992.
        destruct s; lia.
    + done.
  - destruct n as [|m|m]; [| |lia]; cbn [pack].
    + assert (e = -1074) as ->.
      { destruct (Z.eq_dec e (-1074)) as [|Hd]; [done|].
        specialize (Hnorm ltac:(lia)). change (2 ^ 52) with 4503599627370496 in Hnorm. lia. }
      by destruct s.
    + destruct (Z.leb_spec e 971) as [Hle|Hgt]; [|done].
      cbn [SpecFloat.valid_binary is_number units].
      split; [|done]. apply bounded_intro; [lia|lia|done].
Qed.

Lemma finished_bound n e :
  -1074 <= e -> 0 <= n <= 2 ^ 53 -> 0 <= finished n e <= 2 ^ 2098.
Proof.
  intros He Hn. unfold finished.
  pose proof (weight_pos e He) as Hw. pose proof top_pos.
  assert (E : 2 ^ 53 * 2 ^ 2045 = 2 ^ 2098) by (by rewrite <- Z.pow_add_r).
  assert (0 < 2 ^ 2045) by (by apply Z.pow_pos_nonneg).
  destruct (Z.eqb_spec n (2 ^ 53)) as [->|Hne].
  - destruct (Z.leb_spec (e + 1) 971) as [Hle|Hgt]; [|lia].
    pose proof (weight_lt e 971 ltac:(lia)) as Hlt.
    change (weight 971) with (2 ^ 2045) in Hlt.
    change (2 ^ 53) with 9007199254740992 in *. nia.
  - destruct (Z.leb_spec e 971) as [Hle|Hgt]; [|lia].
    pose proof (weight_le e 971 ltac:(lia)) as Hlt.
    change (weight 971) with (2 ^ 2045) in Hlt.
    change (2 ^ 53) with 9007199254740992 in *. nia.
Qed.

Lemma finished_mono n1 e1 n2 e2 :
  -1074 <= e1 -> 0 <= n1 <= 2 ^ 53 ->
  -1074 <= e2 -> 0 <= n2 <= 2 ^ 53 -> (-1074 < e2 -> 2 ^ 52 <= n2) ->
  e1 < e2 \/ (e1 = e2 /\ n1 <= n2) ->
  finished n1 e1 <= finished n2 e2.
Proof.
  intros He1 Hn1 He2 Hn2 Hnorm2 Hlex.
  pose proof (finished_bound n1 e1 He1 Hn1) as Hb1.
  pose proof (weight_pos e1 He1) as Hw1.
  pose proof (weight_pos e2 He2) as Hw2.
  unfold finished in *.
  destruct (Z.eqb_spec n1 (2 ^ 53)) as [E1|N1], (Z.eqb_spec n2 (2 ^ 53)) as [E2|N2];
    repeat match goal with
    | |- context [Z.leb ?a ?b] => destruct (Z.leb_spec a b)
    | H : context [Z.leb ?a ?b] |- _ => destruct (Z.leb_spec a b)
    end; try lia;
    change (2 ^ 53) with 9007199254740992 in *;
    change (2 ^ 52) with 4503599627370496 in *;
    (destruct Hlex as [Hlt|[-> Hle]];
     [pose proof (weight_lt e1 e2 ltac:(lia)); specialize (Hnorm2 ltac:(lia)); try lia; nia
     | try lia; nia]).
Qed.

Lemma rounds_to_mono P1 P2 D v1 v2 :
  0 < D -> rounds_to P1 D v1 -> rounds_to P2 D v2 -> P1 <= P2 -> v1 <= v2.
Proof.
  intros HD (n1 & e1 & Hr1 & ->) (n2 & e2 & Hr2 & ->) HP.
  pose proof (rounding_mono P1 D n1 e1 P2 D n2 e2 HD HD Hr1 Hr2 ltac:(nia)) as Hlex.
  destruct Hr1 as (Hb1 & Hn1 & Hne1), Hr2 as (Hb2 & Hn2 & Hne2).
  destruct (nearest_bounds P1 D n1 e1 HD Hb1 Hne1) as [Hle1 Hge1].
  destruct (nearest_bounds P2 D n2 e2 HD Hb2 Hne2) as [Hle2 Hge2].
  apply finished_mono; try done; try lia; [apply Hb1|apply Hb2].
Qed.

Lemma rounds_to_range P D v : 0 < D -> rounds_to P D v -> 0 <= v <= 2 ^ 2098.
Proof.
  intros HD (n & e & (Hb & Hn & Hne) & ->).
  destruct (nearest_bounds P D n e HD Hb Hne) as [Hle Hge].
  apply finished_bound; [apply Hb|lia].
Qed.

Lemma rounded_mono P1 P2 D v1 v2 :
  0 < D -> rounded P1 D v1 -> rounded P2 D v2 -> P1 <= P2 -> v1 <= v2.
Proof.
  intros HD. unfold rounded.
  destruct (Z.leb_spec 0 P1) as [H1|H1], (Z.leb_spec 0 P2) as [H2|H2];
    intros Hr1 Hr2 HP.
  - by eapply rounds_to_mono.
  - lia.
  - apply rounds_to_range in Hr1, Hr2; lia.
  - assert (- v2 <= - v1); [|lia].
    eapply rounds_to_mono; [done|exact Hr2|exact Hr1|lia].
Qed.

Lemma rounded_range P D v : 0 < D -> rounded P D v -> - 2 ^ 2098 <= v <= 2 ^ 2098.
Proof.
  intros HD. unfold rounded. pose proof top_pos.
  destruct (Z.leb_spec 0 P); intros Hr%rounds_to_range; lia.
Qed.

Lemma rounds_to_zero D : 0 < D -> rounds_to 0 D 0.
Proof.
  intros HD. exists 0, (-1074). split; [|done].
  unfold rounding, binade, nearest_even.
  change (weight (-1074)) with 1. change (2 ^ 53) with 9007199254740992.
  cbn [Z.mul Z.sub Z.abs Z.opp]. lia.
Qed.

(** the quotient and remainder that [SFdiv] hands to the rounding,
    for the divisor [1000 = 8796093022208000 * 2^-43] *)
Lemma div_core_spec m e :
  -1074 <= e ->
  exists q e' l,
    SFdiv_core_binary prec emax (Zpos m) e 8796093022208000 (-43) = (q, e', l) /\
    0 <= q /\ -1074 <= e' /\
    located (Zpos m * weight e * 2 ^ 43) (8796093022208000 * weight e')
      (shr_record_of_loc q l) /\
    e' <= fexp prec emax (Zdigits2 q + e').
Proof.
  intros He. unfold SFdiv_core_binary.
  change (Zdigits2 8796093022208000) with 53.
  cbn [Zdigits2]. rewrite !fexp_eq.
  pose proof (digits2_bounds m) as Hd.
  set (d := Zpos (digits2_pos m)) in *.
  assert (0 < d) by (unfold d; lia).
  set (e' := Z.min (Z.max (d + e - (53 + -43) - 53) (-1074)) (e - -43)).
  assert (He' : -1074 <= e' <= e + 43) by lia.
  set (s := e - -43 - e').
  assert (Hs : 0 <= s) by lia.
  assert (Hm' : match s with
                | 0 => Zpos m
                | Zpos _ => Z.shiftl (Zpos m) s
                | Zneg _ => 0
                end = Zpos m * 2 ^ s).
  { destruct s as [|k|k] eqn:Es; [by rewrite Z.mul_1_r| |lia].
    by rewrite Z.shiftl_mul_pow2. }
  rewrite Hm'.
  pose proof (Z_div_mod (Zpos m * 2 ^ s) 8796093022208000 ltac:(done)) as Hdiv.
  destruct (Z.div_eucl (Zpos m * 2 ^ s) 8796093022208000) as [q r].
  destruct Hdiv as [Hq Hr].
  assert (Hps : 0 < 2 ^ s) by (by apply Z.pow_pos_nonneg).
  assert (Hq0 : 0 <= q) by nia.
  exists q, e', (new_location 8796093022208000 r).
  split; [done|]. split; [done|]. split; [lia|].
  pose proof (weight_pos e' ltac:(lia)) as Hw.
  assert (HP : Zpos m * weight e * 2 ^ 43 = (Zpos m * 2 ^ s) * weight e').
  { unfold weight.
    rewrite <- !Z.mul_assoc, <- !Z.pow_add_r by lia.
    do 2 f_equal. lia. }
  rewrite HP, Hq. clear HP Hm'.
  split.
  - assert (Hrec : forall l, shr_m (shr_record_of_loc q l) = q)
      by (by intros [|[]]).
    unfold located. rewrite Hrec.
    split; [done|]. split; [nia|].
    unfold new_location.
    change (Z.even 8796093022208000) with true. cbv iota.
    unfold new_location_even.
    destruct (Z.eqb_spec r 0) as [->|Hr0]; cbn [shr_record_of_loc shr_r shr_s].
    + ring.
    + destruct (Z.compare_spec (2 * r) 8796093022208000) as [E|E|E];
        cbn [shr_record_of_loc shr_r shr_s]; nia.
  - rewrite fexp_eq. destruct (Z.eq_dec e' (-1074)) as [E|Hne]; [lia|].
    assert (e' <= d + e - 63) by lia.
    assert (105 <= d - 1 + s) by lia.
    assert (H105 : 2 ^ 105 <= Zpos m * 2 ^ s).
    { transitivity (2 ^ (d - 1 + s)); [apply pow2_le; lia|].
      rewrite Z.pow_add_r by lia. nia. }
    change (2 ^ 105) with 40564819207303340847894502572032 in H105.
    assert (Hq52 : 2 ^ 52 <= q).
    { change (2 ^ 52) with 4503599627370496. nia. }
    destruct q as [|p|p]; [done| |lia]. cbn [Zdigits2].
    pose proof (digits2_bounds p) as Hdp.
    assert (52 < Zpos (digits2_pos p)) by (apply pow2_lt_inv; lia).
    lia.
Qed.

(** [x / 1000] on the doubles *)
Lemma SFdiv_1000 x :
  valid_binary x = true -> finite_or_zero x = true ->
  let y := SFdiv prec emax x (S754_finite false 8796093022208000 (-43)) in
  valid_binary y = true /\ is_number y = true /\
  rounded (units x * 2 ^ 43) 8796093022208000 (units y).
Proof.
  intros Hv Hf. destruct x as [s|s| |s m e]; try done; cbn [SFdiv]; cbv zeta.
  - cbn [SpecFloat.valid_binary is_number units]. split; [done|]. split; [done|].
    change (rounds_to 0 8796093022208000 0). by apply rounds_to_zero.
  - cbn [SpecFloat.valid_binary] in Hv.
    destruct (bounded_inv m e Hv) as (He & _ & _).
    destruct (div_core_spec m e ltac:(lia)) as (q & e' & l & -> & Hq & He' & Hl & Hp).
    destruct (binary_round_aux_spec (xorb s false) q e' l _ _ (eq_refl : 0 < 8796093022208000) Hq He' Hl Hp)
      as (n & e2 & -> & Hr).
    pose proof Hr as (Hb & Hn & Hne).
    destruct (nearest_bounds _ _ n e2 (eq_refl : 0 < 8796093022208000) Hb Hne) as [Hle Hge].
    destruct (finish_spec (xorb s false) n e2 ltac:(apply Hb) ltac:(lia) Hge)
      as (Hvy & Hny & Hu).
    split; [done|]. split; [done|]. rewrite Hu. unfold rounded.
    pose proof (weight_pos e ltac:(lia)) as Hw.
    assert (0 < 2 ^ 43) by done.
    destruct s; cbn [xorb units].
    + destruct (Z.leb_spec 0 (- (Zpos m * weight e) * 2 ^ 43)); [nia|].
      exists n, e2. split; [|lia].
      by replace (- (- (Zpos m * weight e) * 2 ^ 43)) with (Zpos m * weight e * 2 ^ 43) by ring.
    + destruct (Z.leb_spec 0 (Zpos m * weight e * 2 ^ 43)); [|nia].
      by exists n, e2.
Qed.

Lemma iter_xO_spec mx d :
  Zpos (Pos.iter xO mx d) = Zpos mx * 2 ^ Zpos d /\
  Zpos (digits2_pos (Pos.iter xO mx d)) = Zpos (digits2_pos mx) + Zpos d.
Proof.
  induction d as [|d [IH1 IH2]] using Pos.peano_ind.
  - cbn [Pos.iter digits2_pos]. rewrite Pos2Z.inj_succ. change (2 ^ 1) with 2.
    change (Zpos mx~0) with (2 * Zpos mx). lia.
  - rewrite Pos.iter_succ. cbn [digits2_pos].
    rewrite !Pos2Z.inj_succ, Z.pow_succ_r by lia.
    change (Zpos (Pos.iter xO mx d)~0) with (2 * Zpos (Pos.iter xO mx d)).
    rewrite IH1, IH2. split; ring.
Qed.

(** [shl_align] brings a mantissa down to the lesser exponent *)
Lemma shl_align_spec mx ex ez :
  let m' := fst (shl_align mx ex ez) in
  let e' := snd (shl_align mx ex ez) in
  e' = Z.min ex ez /\
  Zpos m' = Zpos mx * 2 ^ (ex - e') /\
  Zpos (digits2_pos m') + e' = Zpos (digits2_pos mx) + ex.
Proof.
  unfold shl_align. destruct (ez - ex) as [|d|d] eqn:Ed; cbn [fst snd].
  - rewrite Z.min_l by lia. rewrite Z.sub_diag. lia.
  - rewrite Z.min_l by lia. rewrite Z.sub_diag. lia.
  - rewrite Z.min_r by lia.
    destruct (iter_xO_spec mx d) as [-> ->].
    replace (ex - ez) with (Zpos d) by lia. lia.
Qed.

Lemma weight_split e e' :
  -1074 <= e' <= e -> weight e = 2 ^ (e - e') * weight e'.
Proof.
  intros H. replace e with (e' + (e - e')) at 1 by lia.
  apply weight_add; lia.
Qed.

(** an integer multiple of [2^ez], rounded *)
Lemma binary_round_spec s p ez :
  -1074 <= ez ->
  exists n e,
    binary_round prec emax s p ez = finish s n e /\
    rounding (Zpos p * weight ez) 1 n e.
Proof.
  intros Hez. unfold binary_round.
  set (c := fexp prec emax (Zpos (digits2_pos p) + ez)).
  assert (Hc : -1074 <= c) by (unfold c; rewrite fexp_eq; lia).
  destruct (shl_align_spec p ez c) as (He' & Hm' & Hd').
  destruct (shl_align p ez c) as [mz e']. cbn [fst snd] in *.
  apply binary_round_aux_spec; [done|done|lia| |].
  - unfold located. cbn [shr_record_of_loc shr_m shr_r shr_s].
    rewrite Hm', (weight_split ez e') by lia.
    pose proof (weight_pos e' ltac:(lia)).
    assert (0 < 2 ^ (ez - e')) by (apply Z.pow_pos_nonneg; lia).
    split; [lia|]. split; [nia|ring].
  - cbn [Zdigits2]. rewrite Hd'. fold c. lia.
Qed.

Lemma rounds_to_10800 :
  rounds_to (5937362789990400 * weight (-39)) 1 (5937362789990400 * weight (-39)).
Proof.
  exists 5937362789990400, (-39). split; [|done].
  pose proof (weight_pos (-39) ltac:(done)) as Hw.
  unfold rounding, binade, nearest_even.
  change (2 ^ 53) with 9007199254740992. change (2 ^ 52) with 4503599627370496.
  revert Hw. generalize (weight (-39)). intros w Hw.
  replace (5937362789990400 * (1 * w) - 5937362789990400 * w) with 0 by ring.
  cbn [Z.abs]. lia.
Qed.

(** [x + 10800] on the doubles *)
Lemma SFadd_10800 x :
  valid_binary x = true -> finite_or_zero x = true ->
  let y := SFadd prec emax x (S754_finite false 5937362789990400 (-39)) in
  valid_binary y = true /\ is_number y = true /\
  rounded (units x + 5937362789990400 * weight (-39)) 1 (units y).
Proof.
  intros Hv Hf. destruct x as [s|s| |s m e]; try done; cbn [SFadd]; cbv zeta.
  - cbn [SpecFloat.valid_binary is_number units]. split; [done|]. split; [done|].
    unfold rounded. pose proof (weight_pos (-39) ltac:(done)) as Hw.
    destruct (Z.leb_spec 0 (0 + 5937362789990400 * weight (-39))); [|lia].
    apply rounds_to_10800.
  - cbn [SpecFloat.valid_binary] in Hv.
    destruct (bounded_inv m e Hv) as (He & _ & _).
    set (ez := Z.min e (-39)).
    destruct (shl_align_spec m e ez) as (Ea & Ma & _).
    destruct (shl_align_spec 5937362789990400 (-39) ez) as (Eo & Mo & _).
    cbv zeta in *. rewrite Ma, Mo, Ea, Eo. clear Ma Mo Ea Eo.
    replace (Z.min e ez) with ez by lia.
    replace (Z.min (-39) ez) with ez by lia.
    cbn [cond_Zopp units].
    pose proof (weight_pos ez ltac:(lia)) as Hw.
    set (S := (if s then - (Zpos m * 2 ^ (e - ez)) else Zpos m * 2 ^ (e - ez))
              + 5937362789990400 * 2 ^ (-39 - ez)).
    assert (HS : (if s then - (Zpos m * weight e) else Zpos m * weight e)
                 + 5937362789990400 * weight (-39) = S * weight ez).
    { unfold S. rewrite (weight_split e ez), (weight_split (-39) ez) by lia.
      destruct s; ring. }
    rewrite HS. replace (cond_Zopp s (Zpos m * 2 ^ (e - ez))
               + 5937362789990400 * 2 ^ (-39 - ez)) with S
      by (unfold S; by destruct s).
    clearbody S. clear HS.
    destruct S as [|p|p]; cbn [binary_normalize].
    + cbn [SpecFloat.valid_binary is_number units]. split; [done|]. split; [done|].
      apply (rounds_to_zero 1). done.
    + destruct (binary_round_spec false p ez ltac:(lia)) as (n & e2 & -> & Hr).
      pose proof Hr as (Hb & Hn & Hne).
      destruct (nearest_bounds _ _ n e2 (eq_refl : 0 < 1) Hb Hne) as [Hle Hge].
      destruct (finish_spec false n e2 ltac:(apply Hb) ltac:(lia) Hge)
        as (Hvy & Hny & Hu).
      split; [done|]. split; [done|]. rewrite Hu. unfold rounded.
      destruct (Z.leb_spec 0 (Zpos p * weight ez)); [|nia].
      by exists n, e2.
    + destruct (binary_round_spec true p ez ltac:(lia)) as (n & e2 & -> & Hr).
      pose proof Hr as (Hb & Hn & Hne).
      destruct (nearest_bounds _ _ n e2 (eq_refl : 0 < 1) Hb Hne) as [Hle Hge].
      destruct (finish_spec true n e2 ltac:(apply Hb) ltac:(lia) Hge)
        as (Hvy & Hny & Hu).
      split; [done|]. split; [done|]. rewrite Hu. unfold rounded.
      destruct (Z.leb_spec 0 (Zneg p * weight ez)); [nia|].
      exists n, e2. split; [|lia].
      by replace (- (Zneg p * weight ez)) with (Zpos p * weight ez) by lia.
Qed.

(** An operation that rounds a monotone function of the value, and
    maps each infinity to itself, is monotone on the doubles. *)
Lemma rounded_stage_mono (f : spec_float -> spec_float) (g : Z -> Z) (D : Z) :
  0 < D -> (forall a b, a <= b -> g a <= g b) ->
  (forall s, f (S754_infinity s) = S754_infinity s) ->
  (forall x, valid_binary x = true -> finite_or_zero x = true ->
     valid_binary (f x) = true /\ is_number (f x) = true /\
     rounded (g (units x)) D (units (f x))) ->
  forall x y,
    valid_binary x = true -> valid_binary y = true ->
    is_number x = true -> is_number y = true ->
    SFleb x y = true ->
    (valid_binary (f x) = true /\ is_number (f x) = true) /\
    (valid_binary (f y) = true /\ is_number (f y) = true) /\
    SFleb (f x) (f y) = true.
Proof.
  intros HD Hg Hinf Hfin.
  assert (Hcase : forall x, is_number x = true ->
            (exists s, x = S754_infinity s) \/ finite_or_zero x = true).
  { intros [s|s| |s m e] Hn; try done; [by right|left; by exists s|by right]. }
  assert (Hval : forall x, valid_binary x = true -> is_number x = true ->
            valid_binary (f x) = true /\ is_number (f x) = true).
  { intros x Hv Hn. destruct (Hcase x Hn) as [[s ->]|Hf].
    - by rewrite Hinf.
    - destruct (Hfin x Hv Hf) as (? & ? & _). done. }
  intros x y Hx Hy Nx Ny Hle.
  destruct (Hval x Hx Nx) as [Hfx Nfx], (Hval y Hy Ny) as [Hfy Nfy].
  split; [done|]. split; [done|].
  apply SFleb_units; try done. apply SFleb_units in Hle; try done.
  pose proof (units_bound (f x) Hfx) as Bx.
  pose proof (units_bound (f y) Hfy) as By.
  destruct (Hcase x Nx) as [[sx ->]|Fx], (Hcase y Ny) as [[sy ->]|Fy].
  - rewrite !Hinf. done.
  - pose proof (units_finite_lt y Hy Fy) as Ly.
    rewrite Hinf. cbn [units] in *. destruct sx; lia.
  - pose proof (units_finite_lt x Hx Fx) as Lx.
    rewrite Hinf. cbn [units] in *. destruct sy; lia.
  - destruct (Hfin x Hx Fx) as (_ & _ & Rx), (Hfin y Hy Fy) as (_ & _ & Ry).
    eapply rounded_mono; [exact HD|exact Rx|exact Ry|]. by apply Hg.
Qed.

(** [x / 1000 + 10800] is monotone on the doubles *)
Lemma SF_conversion_monotone x y :
  valid_binary x = true -> valid_binary y = true ->
  SFleb x y = true ->
  SFleb
    (SFadd prec emax (SFdiv prec emax x (S754_finite false 8796093022208000 (-43)))
       (S754_finite false 5937362789990400 (-39)))
    (SFadd prec emax (SFdiv prec emax y (S754_finite false 8796093022208000 (-43)))
       (S754_finite false 5937362789990400 (-39))) = true.
Proof.
  intros Hx Hy Hle.
  assert (Nx : is_number x = true) by (by destruct x).
  assert (Ny : is_number y = true) by (by destruct x, y).
  assert (Hg1 : forall a b, a <= b -> a * 2 ^ 43 <= b * 2 ^ 43).
  { intros a b Hab. assert (0 < 2 ^ 43) by done. nia. }
  assert (Hg2 : forall a b, a <= b ->
            a + 5937362789990400 * weight (-39)
            <= b + 5937362789990400 * weight (-39)) by (intros a b Hab; lia).
  destruct (rounded_stage_mono
              (fun x => SFdiv prec emax x (S754_finite false 8796093022208000 (-43)))
              (fun v => v * 2 ^ 43) 8796093022208000
              eq_refl Hg1 (fun s => match s with true | false => eq_refl end)
              SFdiv_1000 x y Hx Hy Nx Ny Hle)
    as ((Hdx & Ndx) & (Hdy & Ndy) & Hd).
  apply (rounded_stage_mono
           (fun x => SFadd prec emax x (S754_finite false 5937362789990400 (-39)))
           (fun v => v + 5937362789990400 * weight (-39)) 1
           eq_refl Hg2 (fun s => match s with true | false => eq_refl end)
           SFadd_10800 _ _ Hdx Hdy Ndx Ndy Hd).
Qed.

(** [float(ms) / 1000 + (3 * 60 * 60)] is monotone in IEEE binary64,
    whatever numerals [float] reads *)
Lemma binary64_conversion_monotone reader reader_empty :
  @conversion_monotone (binary64_reading reader reader_empty).
Proof.
  intros x y.
  change (PrimFloat.leb x y = true ->
          PrimFloat.leb
            (PrimFloat.add (PrimFloat.div x (Binary64.of_Z 1000))
               (Binary64.of_Z tz_offset))
            (PrimFloat.add (PrimFloat.div y (Binary64.of_Z 1000))
               (Binary64.of_Z tz_offset)) = true).
  rewrite !leb_spec, !add_spec, !div_spec.
  change (Prim2SF (Binary64.of_Z 1000))
    with (S754_finite false 8796093022208000 (-43)).
  change (Prim2SF (Binary64.of_Z tz_offset))
    with (S754_finite false 5937362789990400 (-39)).
  apply SF_conversion_monotone; apply Prim2SF_valid.
Qed.

(** C9, amended: the normalizer does not compare the three times.  In
    IEEE binary64, the arithmetic of Python's [float], and whatever
    numerals [float] reads, a raw record whose parsed times satisfy
    [start <= timestamp] and [start <= end] is turned into a candle
    with [start <= time] and [start <= end]: the division by [1000]
    and the addition of [10800] are correctly rounded, hence
    monotone. *)
Theorem candle_times_keep_raw_order
  (reader : string -> option PrimFloat.float) (reader_empty : reader "" = None)
  (m : @pyval (binary64_reading reader reader_empty))
  (k : @kline (binary64_reading reader reader_empty)) :
  reads_as m k ->
  PrimFloat.leb (k_start k) (k_timestamp k) = true ->
  PrimFloat.leb (k_start k) (k_end k) = true ->
  exists c start time end_,
    convert_message m = Ok c /\
    getitem c "start" = Ok (PFloat start) /\
    getitem c "time" = Ok (PFloat time) /\
    getitem c "end" = Ok (PFloat end_) /\
    PrimFloat.leb start time = true /\
    PrimFloat.leb start end_ = true.
Proof.
  intros Hk Hst Hse.
  exact (monotone_conversion_keeps_order m k
           (binary64_conversion_monotone reader reader_empty) Hk Hst Hse).
Qed.


(** ** The history endpoint *)

Section HistoryFacts.
Context `{PyFloat}.

Lemma convert_candlestick_reads data r :
  row_reads_as data r -> convert_candlestick data = Ok (history_entry r).
Proof.
  intros (Ht & Ho & Hh & Hl & Hc). unfold convert_candlestick.
  rewrite Ht; simpl; rewrite Ho; simpl; rewrite Hh; simpl.
  rewrite Hl; simpl; rewrite Hc; simpl. reflexivity.
Qed.

(** The loop that overwrites the list index by index computes the map
    of the conversion: [front] is the part already overwritten. *)
Lemma convert_in_place_rows todo rs :
  Forall2 row_reads_as todo rs ->
  forall front,
    convert_in_place (seq (length front) (length todo)) (PList (front ++ todo))
    = Ok (PList (front ++ map history_entry rs)).
Proof.
  induction 1 as [|data r todo rs Hr _ IH]; intros front.
  { reflexivity. }
  cbn [length seq convert_in_place getindex].
  rewrite list_lookup_middle by reflexivity. cbn [mbind result_bind].
  rewrite (convert_candlestick_reads data r Hr). cbn [mbind result_bind setindex].
  rewrite bool_decide_eq_true_2 by (rewrite length_app; simpl; lia).
  cbn [mbind result_bind].
  replace (<[length front := history_entry r]> (front ++ data :: todo))
    with ((front ++ [history_entry r]) ++ todo).
  - replace (S (length front)) with (length (front ++ [history_entry r]))
      by (rewrite length_app; simpl; lia).
    rewrite IH. by rewrite <- app_assoc.
  - rewrite <- app_assoc. simpl. symmetry.
    rewrite insert_app_r_alt by lia.
    by rewrite Nat.sub_diag.
Qed.

(** C8: when [end] is omitted, or supplied as a numeral, and the venue
    answers the request [params] with the rows [r0 .. rn], each with
    five leading numeric entries, the endpoint returns the entries for
    [rn .. r0]: the time is the row's millisecond value divided by 1000
    plus 10800, the four prices are the parsed ones.  The request
    carries the limit (200 when omitted) and, when [end] is supplied,
    [(end - 10800) * 1000]. *)
Theorem history_is_converted_and_reversed
  (get_kline : kline_params -> result pyval)
  (category symbol interval : string) (limit : option Z)
  (end_ : option string) (seconds : option float)
  (response listing : pyval) (rows : list pyval) (rs : list row) :
  match end_ with
  | Some s => float_of_string s = seconds /\ is_Some seconds
  | None => seconds = None
  end ->
  let params :=
    mkParams category symbol interval
      (match limit with Some n => if n =? 0 then 200 else n | None => 200 end)
      ((fun e => fmul (fsub e (float_of_Z 10800)) (float_of_Z 1000)) <$> seconds) in
  get_kline params = Ok response ->
  getitem response "result" = Ok listing ->
  getitem listing "list" = Ok (PList rows) ->
  Forall2 row_reads_as rows rs ->
  read_root get_kline category symbol interval limit end_
  = Ok (PList (reverse (map history_entry rs))) /\
  build_params category symbol interval limit end_ = Ok params /\
  (limit = None -> kp_limit params = 200).
Proof.
  intros Hend params Hget Hres Hlist Hrows.
  assert (Hp : build_params category symbol interval limit end_ = Ok params).
  { unfold build_params, params, limit_or_default.
    destruct end_ as [s|]; [|by rewrite Hend].
    destruct Hend as [Hs [e He]]. rewrite He in Hs. rewrite He.
    destruct s as [|a s]; [by rewrite float_of_empty_string in Hs|].
    cbn [py_float]. rewrite Hs. reflexivity. }
  split; [|split; [done|by intros ->]].
  unfold read_root. rewrite Hp. cbn [mbind result_bind].
  rewrite Hget. cbn [mbind result_bind].
  rewrite Hres. cbn [mbind result_bind].
  rewrite Hlist. cbn [mbind result_bind py_len].
  pose proof (convert_in_place_rows rows rs Hrows []) as Hloop.
  cbn [length app] in Hloop. rewrite Hloop. reflexivity.
Qed.


End HistoryFacts.

(** * Further properties *)

(** ** The broadcast loop, beyond one batch *)

Lemma send_to_rest ok message st c :
  orderbook_streams (send_to ok message st c) = orderbook_streams st /\
  next_handle (send_to ok message st c) = next_handle st.
Proof. unfold send_to. by destruct (ok c). Qed.

Lemma dispatch_rest ok message cs : forall st,
  orderbook_streams (foldl (send_to ok message) st cs) = orderbook_streams st /\
  next_handle (foldl (send_to ok message) st cs) = next_handle st.
Proof.
  induction cs as [|c cs IH]; intros st; simpl; [done|].
  destruct (IH (send_to ok message st c)) as [-> ->].
  apply send_to_rest.
Qed.

Lemma tick_keeps_upstream ok st :
  active_bybit_ws (broadcast_tick ok st) = active_bybit_ws st /\
  kline_streams (broadcast_tick ok st) = kline_streams st.
Proof.
  unfold broadcast_tick.
  destruct (message_queue st) as [|message rest]; [done|].
  case_bool_decide; [|done].
  by destruct (dispatch_upstream ok message (elements (clients st))
                 (set_queue rest (emit (Popleft message) st))) as [-> ->].
Qed.

(** X1: an iteration of the broadcast loop can only prune: it adds no
    client, and it leaves the upstream object, the kline subscriptions,
    the order-book streams and the next handle as they were. *)
Theorem tick_only_prunes ok st :
  clients (broadcast_tick ok st) ⊆ clients st /\
  active_bybit_ws (broadcast_tick ok st) = active_bybit_ws st /\
  kline_streams (broadcast_tick ok st) = kline_streams st /\
  orderbook_streams (broadcast_tick ok st) = orderbook_streams st /\
  next_handle (broadcast_tick ok st) = next_handle st.
Proof.
  unfold broadcast_tick.
  destruct (message_queue st) as [|message rest]; [done|].
  case_bool_decide; [|done].
  set (st0 := set_queue rest (emit (Popleft message) st)).
  destruct (dispatch_upstream ok message (elements (clients st)) st0) as [-> ->].
  destruct (dispatch_rest ok message (elements (clients st)) st0) as [-> ->].
  split; [|done].
  intros x Hx. by apply dispatch_clients in Hx as [Hx _].
Qed.

(** X2: an iteration leaves the state as it was exactly when the queue
    or the registry is empty. *)
Theorem tick_is_idle_iff ok st :
  broadcast_tick ok st = st <-> message_queue st = [] \/ clients st = ∅.
Proof.
  split.
  - intros Hidle.
    destruct (message_queue st) as [|message rest] eqn:Hq; [by left|].
    destruct (decide (clients st = ∅)) as [Hc|Hc]; [by right|].
    destruct (tick_dispatch ok st message rest Hq Hc) as (Hq' & _ & _).
    rewrite Hidle, Hq in Hq'.
    apply (f_equal length) in Hq'. simpl in Hq'. lia.
  - unfold broadcast_tick. intros [Hq|Hc].
    + by rewrite Hq.
    + destruct (message_queue st); [done|].
      by rewrite bool_decide_eq_false_2 by (intros E; by apply E).
Qed.

Lemma received_app c t1 t2 : received c (t1 ++ t2) = received c t1 ++ received c t2.
Proof. apply omap_app. Qed.
Lemma sent_to_app c t1 t2 : sent_to c (t1 ++ t2) = sent_to c t1 ++ sent_to c t2.
Proof. apply omap_app. Qed.

(** in one dispatch a client is written to once if it is in the
    snapshot, and not at all otherwise *)
Lemma dispatch_sent_to ok message c cs :
  NoDup cs ->
  sent_to c (concat (map (send_effects ok message) cs))
  = if decide (c ∈ cs) then [message] else [].
Proof.
  induction 1 as [|c' cs Hnin _ IH].
  - case_decide as Hin; [by apply elem_of_nil in Hin | done].
  - cbn [map concat]. rewrite sent_to_app, IH.
    assert (Hhead : sent_to c (send_effects ok message c')
                    = if decide (c' = c) then [message] else []).
    { unfold send_effects, sent_to.
      destruct (ok c'); cbn [omap list_omap]; by destruct (decide (c' = c)). }
    rewrite Hhead.
    destruct (decide (c' = c)) as [->|Hne]; destruct (decide (c ∈ cs));
      case_decide; try done; exfalso; set_solver.
Qed.

Lemma dispatch_received ok message c cs :
  NoDup cs ->
  received c (concat (map (send_effects ok message) cs))
  = if decide (c ∈ cs) then (if ok c then [message] else []) else [].
Proof.
  induction 1 as [|c' cs Hnin _ IH].
  - case_decide as Hin; [by apply elem_of_nil in Hin | done].
  - cbn [map concat]. rewrite received_app, IH.
    assert (Hhead : received c (send_effects ok message c')
                    = if decide (c' = c) then (if ok c then [message] else [])
                      else []).
    { unfold send_effects, received.
      destruct (ok c') eqn:Hok; cbn [omap list_omap];
        destruct (decide (c' = c)) as [<-|]; by rewrite ?Hok. }
    rewrite Hhead.
    destruct (decide (c' = c)) as [->|Hne]; destruct (decide (c ∈ cs));
      case_decide; try done; try (exfalso; set_solver).
    by rewrite app_nil_r.
Qed.

(** the loop while every write returns *)
Lemma drain_trace oks : forall st,
  clients st ≠ ∅ ->
  Forall (fun ok => forall c, c ∈ clients st -> ok c = true) oks ->
  exists t,
    trace (broadcast_messages oks st) = trace st ++ t /\
    message_queue (broadcast_messages oks st)
    = drop (length oks) (message_queue st) /\
    clients (broadcast_messages oks st) = clients st /\
    forall c, c ∈ clients st ->
      received c t = take (length oks) (message_queue st).
Proof.
  induction oks as [|ok oks IH]; intros st Hc Hoks.
  { exists []. simpl. rewrite app_nil_r, drop_0. by repeat split. }
  inversion Hoks as [|? ? Hok Hrest]; subst. simpl.
  destruct (message_queue st) as [|message rest] eqn:Hq.
  - assert (Hidle : broadcast_tick ok st = st)
      by (unfold broadcast_tick; by rewrite Hq).
    rewrite Hidle. destruct (IH st Hc Hrest) as (t & Ht & Hq' & Hc' & Hr).
    exists t. rewrite Hq in Hq', Hr. rewrite drop_nil in Hq'.
    repeat split; try done. intros c Hin. rewrite (Hr c Hin).
    by rewrite take_nil.
  - destruct (tick_dispatch ok st message rest Hq Hc) as (Hq1 & Ht1 & Hc1).
    assert (Hsame : clients (broadcast_tick ok st) = clients st).
    { apply set_eq. intros x. rewrite Hc1. naive_solver. }
    assert (Hc2 : clients (broadcast_tick ok st) ≠ ∅) by (by rewrite Hsame).
    assert (Hoks2 : Forall (fun ok' => forall c,
                              c ∈ clients (broadcast_tick ok st) -> ok' c = true)
                      oks).
    { eapply Forall_impl; [exact Hrest|].
      intros ok' Hok' c Hin. apply Hok'. by rewrite <- Hsame. }
    destruct (IH (broadcast_tick ok st) Hc2 Hoks2) as (t & Ht & Hq' & Hc' & Hr).
    exists ((Popleft message
             :: concat (map (send_effects ok message) (elements (clients st))))
            ++ t).
    rewrite Ht, Ht1, Hq', Hq1, Hc', Hsame.
    split; [by rewrite <- app_assoc|]. split; [done|]. split; [done|].
    intros c Hin. rewrite received_app.
    rewrite (Hr c) by (by rewrite Hsame). rewrite Hq1.
    change (received c (Popleft message :: ?l)) with (received c l).
    rewrite dispatch_received by apply NoDup_elements.
    rewrite decide_True by (by apply elem_of_elements).
    by rewrite (Hok c Hin).
Qed.

(** X3: while the registry is not empty and every write returns, [k]
    iterations of the loop remove the first [k] batches from the queue,
    keep the registry, and bring to every registered client exactly
    those batches, in queue order. *)
Theorem broadcast_drains_in_order oks st :
  clients st ≠ ∅ ->
  Forall (fun ok => forall c, c ∈ clients st -> ok c = true) oks ->
  message_queue (broadcast_messages oks st)
  = drop (length oks) (message_queue st) /\
  clients (broadcast_messages oks st) = clients st /\
  forall c, c ∈ clients st ->
    received c (since st (broadcast_messages oks st))
    = take (length oks) (message_queue st).
Proof.
  intros Hc Hoks.
  destruct (drain_trace oks st Hc Hoks) as (t & Ht & Hq & Hc' & Hr).
  by rewrite (since_app _ _ _ Ht).
Qed.

(** X4: an iteration in which every write raises empties the registry
    and drops the batch, and the upstream subscription stays open with
    nobody registered; the next handler that ends closes it. *)
Theorem failed_tick_leaves_subscription_open ok st message rest h :
  message_queue st = message :: rest ->
  clients st ≠ ∅ ->
  (forall c, c ∈ clients st -> ok c = false) ->
  active_bybit_ws st = Some h ->
  clients (broadcast_tick ok st) = ∅ /\
  message_queue (broadcast_tick ok st) = rest /\
  active_bybit_ws (broadcast_tick ok st) = Some h /\
  kline_streams (broadcast_tick ok st) = kline_streams st /\
  forall c,
    active_bybit_ws (disconnect c (broadcast_tick ok st)) = None /\
    kline_streams (disconnect c (broadcast_tick ok st))
    = kline_streams st ∖ {[h]}.
Proof.
  intros Hq Hc Hfail Ha.
  destruct (tick_dispatch ok st message rest Hq Hc) as (Hq' & _ & Hcl).
  destruct (tick_keeps_upstream ok st) as (Ha' & Hk').
  assert (Hempty : clients (broadcast_tick ok st) = ∅).
  { apply set_eq. intros x. rewrite Hcl. split; [|set_solver].
    intros [Hx Hok]. rewrite (Hfail x Hx) in Hok. done. }
  rewrite Ha' , Hk', Ha. repeat split; try done.
  - unfold disconnect. simpl. rewrite Ha', Ha, Hempty.
    by rewrite bool_decide_eq_true_2 by set_solver.
  - unfold disconnect. simpl. rewrite Ha', Ha, Hempty.
    rewrite bool_decide_eq_true_2 by set_solver. simpl. by rewrite Hk'.
Qed.

(** X5: batches that were queued while nobody was registered are
    not dropped: the first client to connect is written the oldest of
    them in the next iteration. *)
Theorem backlog_goes_to_the_first_client ok c st message rest :
  clients st = ∅ ->
  message_queue st = message :: rest ->
  message_queue (broadcast_tick ok (connect c st)) = rest /\
  sends (since st (broadcast_tick ok (connect c st))) = [(c, message, ok c)].
Proof.
  intros Hc Hq.
  assert (Hq1 : message_queue (connect c st) = message :: rest).
  { unfold connect. simpl. by destruct (active_bybit_ws st). }
  assert (Hc1 : clients (connect c st) = {[c]}).
  { unfold connect. simpl. destruct (active_bybit_ws st); simpl; set_solver. }
  assert (Ht1 : trace (connect c st) = trace st).
  { unfold connect. simpl. by destruct (active_bybit_ws st). }
  assert (Hne : clients (connect c st) ≠ ∅) by (rewrite Hc1; set_solver).
  destruct (tick_dispatch ok (connect c st) message rest Hq1 Hne)
    as (Hq' & Ht & _).
  split; [done|]. rewrite Ht1, Hc1 in Ht.
  rewrite (since_app _ _ _ Ht). cbn [sends omap list_omap].
  fold (sends (concat (map (send_effects ok message) (elements ({[c]} : gset client))))).
  rewrite dispatch_sends. by rewrite elements_singleton.
Qed.

(** ** The registry and the upstream connection, over all events *)

Lemma split_on_plain sep p :
  sep ∉ list_ascii_of_string p -> split_on sep p = [p].
Proof.
  induction p as [|a p IH]; intros Hnin; [done|].
  simpl in *. apply not_elem_of_cons in Hnin as [Hne Hnin].
  rewrite (proj2 (Ascii.eqb_neq a sep)) by congruence.
  by rewrite IH.
Qed.

Lemma split_on_app sep p r :
  sep ∉ list_ascii_of_string p ->
  split_on sep (p ++ String sep r) = p :: split_on sep r.
Proof.
  induction p as [|a p IH]; intros Hnin; simpl in *.
  - by rewrite Ascii.eqb_refl.
  - apply not_elem_of_cons in Hnin as [Hne Hnin].
    rewrite (proj2 (Ascii.eqb_neq a sep)) by congruence.
    by rewrite IH.
Qed.

Lemma subscribe_prefix x : String.prefix "subscribe:" ("subscribe:" ++ x) = true.
Proof.
  simpl. repeat (destruct (ascii_dec _ _) as [_|Hne]; [|by destruct Hne]).
  by destruct x.
Qed.

Lemma subscribe_word_plain : ":"%char ∉ list_ascii_of_string "subscribe".
Proof.
  simpl. rewrite !not_elem_of_cons.
  repeat split; try discriminate. apply not_elem_of_nil.
Qed.

(** X6: with a subscription open, [subscribe:<symbol>] asks for the
    order-book stream of [<symbol>]; what follows a second colon is
    ignored, and a text that does not start with [subscribe:] changes
    nothing. *)
Theorem subscribe_reads_the_symbol_up_to_a_colon symbol rest data st h :
  active_bybit_ws st = Some h ->
  ":"%char ∉ list_ascii_of_string symbol ->
  String.prefix "subscribe:" data = false ->
  on_text ("subscribe:" ++ symbol) st = Ok (orderbook_stream h symbol st) /\
  on_text ("subscribe:" ++ symbol ++ String ":" rest) st
  = Ok (orderbook_stream h symbol st) /\
  on_text data st = Ok st.
Proof.
  intros Ha Hsym Hother. unfold on_text.
  rewrite !subscribe_prefix, Hother, Ha.
  change ("subscribe:" ++ symbol)%string
    with ("subscribe" ++ String ":" symbol)%string.
  change ("subscribe:" ++ symbol ++ String ":" rest)%string
    with ("subscribe" ++ String ":" (symbol ++ String ":" rest))%string.
  rewrite !(split_on_app _ "subscribe") by apply subscribe_word_plain.
  rewrite split_on_plain by done. rewrite split_on_app by done.
  done.
Qed.

(** X7: connecting a registered client again and ending an ended
    handler again change nothing. *)
Theorem register_and_unregister_are_idempotent c st :
  connect c (connect c st) = connect c st /\
  disconnect c (disconnect c st) = disconnect c st.
Proof.
  split; [|apply disconnect_twice].
  unfold connect, add_client, set_clients, open_kline. simpl.
  destruct (active_bybit_ws st) as [h|] eqn:Ha; simpl; rewrite ?Ha; simpl;
    f_equal; set_solver.
Qed.

Lemma quiet_texts texts : forall st,
  Forall (fun data => String.prefix "subscribe:" data = false) texts ->
  receive_loop texts st = st.
Proof.
  induction texts as [|data texts IH]; intros st Hq; [done|].
  inversion Hq as [|? ? Hd Hrest]; subst. simpl.
  unfold on_text. rewrite Hd. by apply IH.
Qed.

(** X8: while other clients are registered, a client that connects,
    sends texts that are no [subscribe:] command, and leaves, leaves
    the whole state as it found it. *)
Theorem quiet_visit_leaves_no_mark c texts st :
  c ∉ clients st ->
  clients st ≠ ∅ ->
  is_Some (active_bybit_ws st) ->
  Forall (fun data => String.prefix "subscribe:" data = false) texts ->
  websocket_endpoint c texts st = st.
Proof.
  intros Hc Hne [h Ha] Hq. unfold websocket_endpoint.
  rewrite quiet_texts by done.
  unfold connect, disconnect, add_client, discard_client, set_clients.
  simpl. rewrite Ha. simpl.
  replace (({[c]} ∪ clients st) ∖ {[c]}) with (clients st) by set_solver.
  rewrite bool_decide_eq_false_2 by done.
  destruct st; simpl in *. by subst.
Qed.

Lemma receive_loop_streams h texts : forall st,
  active_bybit_ws st = Some h ->
  exists l,
    Forall (fun hs => hs.1 = h) l /\
    receive_loop texts st
    = mkState (Some h) (message_queue st) (clients st) (kline_streams st)
        (orderbook_streams st ++ l) (next_handle st) (trace st).
Proof.
  induction texts as [|data texts IH]; intros st Ha.
  { exists []. split; [done|]. rewrite app_nil_r.
    destruct st; simpl in *. by subst. }
  simpl. destruct (on_text data st) as [st'|e] eqn:E.
  - destruct (on_text_inv _ _ _ E) as [->|(h' & symbol & Hh & ->)].
    + by apply IH.
    + assert (h' = h) as -> by congruence.
      destruct (IH (orderbook_stream h symbol st) Ha) as (l & Hl & ->).
      exists ((h, symbol) :: l). split; [by constructor|].
      simpl. by rewrite <- app_assoc.
  - apply on_text_raises in E. congruence.
Qed.

Lemma filter_other_handle h (l : list (handle * string)) :
  Forall (fun hs => hs.1 = h) l -> filter (fun hs => hs.1 ≠ h) l = [].
Proof.
  induction 1 as [|hs l Hhs _ IH]; [done|].
  rewrite filter_cons_False by (intros Hne; by apply Hne). done.
Qed.

(** X9: a client that visits a service with nobody connected opens
    the subscription and closes it again when it leaves, with every
    order-book stream it asked for; only the count of upstream objects
    tells that it came. *)
Theorem lone_visit_opens_and_closes c texts st :
  clients st = ∅ ->
  active_bybit_ws st = None ->
  kline_streams st = ∅ ->
  orderbook_streams st = [] ->
  websocket_endpoint c texts st
  = mkState None (message_queue st) ∅ ∅ [] (S (next_handle st)) (trace st).
Proof.
  intros Hc Ha Hk Ho. unfold websocket_endpoint.
  set (st1 := connect c st).
  assert (Ha1 : active_bybit_ws st1 = Some (next_handle st))
    by (unfold st1, connect; simpl; by rewrite Ha).
  destruct (receive_loop_streams _ texts st1 Ha1) as (l & Hl & ->).
  unfold disconnect, discard_client, set_clients, exit_upstream. simpl.
  unfold st1, connect. simpl. rewrite Ha. simpl. rewrite Hc, Hk, Ho.
  rewrite bool_decide_eq_true_2 by set_solver. simpl.
  rewrite (filter_other_handle _ l Hl).
  f_equal; set_solver.
Qed.

Section ServiceFacts.
Context `{PyFloat}.
Variable json_dumps : pyval -> string.
Implicit Types (st : state) (ev : event) (evs : list event).

(** what a step appends to the trace *)
Lemma step_trace_shape st ev :
  exists t,
    trace (step json_dumps st ev) = trace st ++ t /\
    (t = [] \/ (exists s, t = [Append s]) \/ (exists e, t = [LogCallbackError e]) \/
     exists ok message,
       t = Popleft message
           :: concat (map (send_effects ok message) (elements (clients st)))).
Proof.
  destruct ev as [message|ok|c|c data|c]; simpl.
  - unfold bybit_callback.
    destruct (normalize json_dumps message) as [s|e];
      eexists; (split; [reflexivity|]); eauto.
  - destruct (message_queue st) as [|message rest] eqn:Hq.
    { exists []. unfold broadcast_tick. rewrite Hq, app_nil_r. eauto. }
    destruct (decide (clients st = ∅)) as [Hc|Hc].
    { exists []. unfold broadcast_tick. rewrite Hq, app_nil_r.
      rewrite bool_decide_eq_false_2 by (intros E; by apply E). eauto. }
    destruct (tick_dispatch ok st message rest Hq Hc) as (_ & Ht & _).
    eexists. split; [exact Ht|]. do 3 right. eauto.
  - exists []. rewrite app_nil_r. split; [|by left].
    unfold connect. simpl. by destruct (active_bybit_ws st).
  - exists []. rewrite app_nil_r. split; [|by left].
    by destruct (receive_trace c data st) as [-> _].
  - exists []. rewrite app_nil_r. split; [|by left].
    by destruct (disconnect_trace c st) as [-> _].
Qed.

Lemma run_trace_sublist c evs : forall st,
  exists t,
    trace (run json_dumps evs st) = trace st ++ t /\
    sent_to c t `sublist_of` popped t.
Proof.
  induction evs as [|ev evs IH]; intros st.
  { exists []. by rewrite app_nil_r. }
  rewrite run_cons.
  destruct (step_trace_shape st ev) as (t1 & Ht1 & Hshape).
  destruct (IH (step json_dumps st ev)) as (t2 & Ht2 & Hsub).
  exists (t1 ++ t2). split; [by rewrite Ht2, Ht1, app_assoc|].
  rewrite sent_to_app, popped_app. apply sublist_app; [|done].
  destruct Hshape as [->|[[s ->]|[[e ->]|(ok & message & ->)]]]; try done.
  change (sent_to c (Popleft message :: ?l)) with (sent_to c l).
  change (popped (Popleft message :: ?l)) with (message :: popped l).
  rewrite dispatch_popped, dispatch_sent_to by apply NoDup_elements.
  case_decide; [done|apply sublist_nil_l].
Qed.

(** X10: along any run, the batches written to one client are a
    subsequence of the batches popped from the queue: a client is sent
    no batch twice and no two batches out of queue order. *)
Theorem client_sees_batches_in_order c evs st :
  sent_to c (since st (run json_dumps evs st))
  `sublist_of` popped (since st (run json_dumps evs st)).
Proof.
  destruct (run_trace_sublist c evs st) as (t & Ht & Hsub).
  by rewrite (since_app _ _ _ Ht).
Qed.

Lemma disconnect_open_when_registered c st :
  open_when_registered st -> open_when_registered (disconnect c st).
Proof.
  unfold open_when_registered, disconnect. simpl.
  destruct (active_bybit_ws st) as [h|] eqn:Ha; simpl.
  - case_bool_decide as Hc; simpl; [done|eauto].
  - intros Hst Hne. rewrite Ha. apply Hst. set_solver.
Qed.

Lemma step_open_when_registered st ev :
  open_when_registered st -> open_when_registered (step json_dumps st ev).
Proof.
  destruct ev as [message|ok|c|c data|c]; simpl.
  - unfold open_when_registered, bybit_callback.
    by destruct (normalize json_dumps message).
  - intros Hst Hne. destruct (tick_keeps_upstream ok st) as [-> _].
    apply Hst. intros Hc. apply Hne.
    unfold broadcast_tick. destruct (message_queue st); [done|].
    by rewrite bool_decide_eq_false_2 by (intros E; by apply E).
  - intros _ _. apply connect_is_open.
  - unfold receive. destruct (on_text data st) as [st'|e] eqn:E.
    + by destruct (on_text_inv _ _ _ E) as [->|(h & symbol & _ & ->)].
    + apply disconnect_open_when_registered.
  - apply disconnect_open_when_registered.
Qed.

Lemma run_open_when_registered evs : forall st,
  open_when_registered st -> open_when_registered (run json_dumps evs st).
Proof.
  induction evs as [|ev evs IH]; intros st Hst; [done|].
  rewrite run_cons. by apply IH, step_open_when_registered.
Qed.

Lemma reachable_open_when_registered evs :
  open_when_registered (run json_dumps evs initial).
Proof.
  apply run_open_when_registered. intros Hne. by destruct Hne.
Qed.

(** X11: after any run of the service, ticks with failed writes
    included, a registry that is not empty goes with exactly one live
    kline subscription, held in [active_bybit_ws]. *)
Theorem registered_clients_have_a_feed evs :
  clients (run json_dumps evs initial) ≠ ∅ ->
  exists h,
    active_bybit_ws (run json_dumps evs initial) = Some h /\
    kline_streams (run json_dumps evs initial) = {[h]}.
Proof.
  intros Hne.
  destruct (reachable_open_when_registered evs Hne) as [h Hh].
  exists h. split; [done|].
  pose proof (run_accounted json_dumps evs initial initial_accounted) as Hacc.
  unfold accounted in Hacc. by rewrite Hacc, Hh.
Qed.

(** X12: after any run, the [subscribe:] command of a registered
    client never raises: it finds the upstream object and adds one
    order-book stream to it, and the client stays registered. *)
Theorem subscribe_of_a_registered_client_succeeds evs c data :
  c ∈ clients (run json_dumps evs initial) ->
  String.prefix "subscribe:" data = true ->
  exists h symbol,
    active_bybit_ws (run json_dumps evs initial) = Some h /\
    split_on ":"%char data !! 1%nat = Some symbol /\
    receive c data (run json_dumps evs initial)
    = orderbook_stream h symbol (run json_dumps evs initial).
Proof.
  intros Hc Hp. set (st := run json_dumps evs initial) in *.
  destruct (reachable_open_when_registered evs) as [h Hh];
    [fold st; set_solver|]. fold st in Hh.
  pose proof (split_on_prefix ":"%char _ _ Hp ltac:(simpl; lia)) as Hlen.
  destruct (split_on ":"%char data !! 1%nat) as [symbol|] eqn:E.
  2: { apply lookup_ge_None in E. lia. }
  exists h, symbol. split; [done|]. split; [done|].
  unfold receive, on_text. by rewrite Hp, E, Hh.
Qed.

Lemma feed_without_clients evs : forall st,
  clients st = ∅ ->
  Forall (fun ev => is_feed_event ev = true) evs ->
  exists t,
    trace (run json_dumps evs st) = trace st ++ t /\
    popped t = [] /\
    message_queue (run json_dumps evs st) = message_queue st ++ appended t /\
    clients (run json_dumps evs st) = ∅.
Proof.
  induction evs as [|ev evs IH]; intros st Hc Hevs.
  { exists []. by rewrite !app_nil_r. }
  inversion Hevs as [|? ? Hev Hrest]; subst. rewrite run_cons.
  assert (exists t1,
            trace (step json_dumps st ev) = trace st ++ t1 /\
            popped t1 = [] /\
            message_queue (step json_dumps st ev) = message_queue st ++ appended t1 /\
            clients (step json_dumps st ev) = ∅) as (t1 & Ht1 & Hp1 & Hq1 & Hc1).
  { destruct ev as [message|ok| | |]; try discriminate; simpl.
    - unfold bybit_callback.
      destruct (normalize json_dumps message) as [s|e].
      + by exists [Append s].
      + exists [LogCallbackError e]. simpl. by rewrite app_nil_r.
    - exists []. rewrite !app_nil_r.
      assert (Hidle : broadcast_tick ok st = st).
      { unfold broadcast_tick. destruct (message_queue st); [done|].
        by rewrite bool_decide_eq_false_2 by (intros E; by apply E). }
      by rewrite Hidle. }
  destruct (IH _ Hc1 Hrest) as (t2 & Ht2 & Hp2 & Hq2 & Hc2).
  exists (t1 ++ t2). rewrite Ht2, Ht1, Hq2, Hq1, popped_app, appended_app, Hp1, Hp2.
  by rewrite !app_assoc.
Qed.

(** X13: while nobody is registered, callbacks and iterations of the
    broadcast loop pop nothing: every accepted batch stays in the
    queue, behind the ones already there. *)
Theorem batches_pile_up_without_clients evs st :
  clients st = ∅ ->
  Forall (fun ev => is_feed_event ev = true) evs ->
  popped (since st (run json_dumps evs st)) = [] /\
  message_queue (run json_dumps evs st)
  = message_queue st ++ appended (since st (run json_dumps evs st)) /\
  clients (run json_dumps evs st) = ∅.
Proof.
  intros Hc Hevs.
  destruct (feed_without_clients evs st Hc Hevs) as (t & Ht & Hp & Hq & Hc').
  by rewrite (since_app _ _ _ Ht).
Qed.

Lemma disconnect_orderbooks c st :
  orderbooks_on_active st -> orderbooks_on_active (disconnect c st).
Proof.
  unfold orderbooks_on_active, disconnect. simpl.
  destruct (active_bybit_ws st) as [h|] eqn:Ha; simpl; rewrite ?Ha; [|done].
  case_bool_decide; simpl; [|by rewrite Ha].
  intros Hst hs [Hne Hin]%list_elem_of_filter.
  specialize (Hst hs Hin). congruence.
Qed.

Lemma step_orderbooks st ev :
  orderbooks_on_active st -> orderbooks_on_active (step json_dumps st ev).
Proof.
  destruct ev as [message|ok|c|c data|c]; simpl.
  - unfold orderbooks_on_active, bybit_callback.
    by destruct (normalize json_dumps message).
  - unfold orderbooks_on_active, broadcast_tick.
    destruct (message_queue st) as [|message rest]; [done|].
    case_bool_decide; [|done].
    set (st0 := set_queue rest (emit (Popleft message) st)).
    destruct (dispatch_upstream ok message (elements (clients st)) st0) as [-> _].
    by destruct (dispatch_rest ok message (elements (clients st)) st0) as [-> _].
  - unfold orderbooks_on_active, connect. simpl.
    destruct (active_bybit_ws st) as [h|] eqn:Ha; simpl; [by rewrite Ha|].
    intros Hst hs Hin. specialize (Hst hs Hin). congruence.
  - unfold receive. destruct (on_text data st) as [st'|e] eqn:E.
    + destruct (on_text_inv _ _ _ E) as [->|(h & symbol & Hh & ->)]; [done|].
      unfold orderbooks_on_active. simpl.
      intros Hst hs [Hin|Hin]%elem_of_app; [by apply Hst|].
      apply list_elem_of_singleton in Hin. by subst.
    + apply disconnect_orderbooks.
  - apply disconnect_orderbooks.
Qed.

Lemma reachable_orderbooks evs :
  orderbooks_on_active (run json_dumps evs initial).
Proof.
  assert (Hgen : forall st, orderbooks_on_active st ->
                            orderbooks_on_active (run json_dumps evs st)).
  { induction evs as [|ev evs IH]; intros st Hst; [done|].
    rewrite run_cons. by apply IH, step_orderbooks. }
  apply Hgen. intros hs Hin. by apply elem_of_nil in Hin.
Qed.

(** X14: after any run, every order-book stream runs on the upstream
    object held in [active_bybit_ws]; when the subscription is closed
    no order-book stream is left. *)
Theorem orderbook_streams_end_with_the_subscription evs :
  (forall h symbol,
     (h, symbol) ∈ orderbook_streams (run json_dumps evs initial) ->
     active_bybit_ws (run json_dumps evs initial) = Some h) /\
  (active_bybit_ws (run json_dumps evs initial) = None ->
   orderbook_streams (run json_dumps evs initial) = []).
Proof.
  pose proof (reachable_orderbooks evs) as Hst. split.
  - intros h symbol Hin. apply (Hst (h, symbol) Hin).
  - intros Ha.
    destruct (orderbook_streams (run json_dumps evs initial)) as [|hs l] eqn:E;
      [done|].
    assert (Hin : hs ∈ orderbook_streams (run json_dumps evs initial))
      by (rewrite E; apply list_elem_of_here).
    specialize (Hst hs Hin). congruence.
Qed.

Lemma receive_loop_queue texts : forall st,
  message_queue (receive_loop texts st) = message_queue st /\
  trace (receive_loop texts st) = trace st.
Proof.
  induction texts as [|data texts IH]; intros st; [done|].
  simpl. destruct (on_text data st) as [st'|e] eqn:E; [|done].
  destruct (IH st') as [-> ->].
  by destruct (on_text_inv _ _ _ E) as [->|(h & symbol & _ & ->)].
Qed.

(** X15: the handler of a connection never touches the relay queue
    or writes to a client, and the venue's callback never touches the
    registry or the upstream connection. *)
Theorem handlers_keep_to_their_own_state c texts message st :
  message_queue (websocket_endpoint c texts st) = message_queue st /\
  trace (websocket_endpoint c texts st) = trace st /\
  clients (bybit_callback json_dumps message st) = clients st /\
  active_bybit_ws (bybit_callback json_dumps message st) = active_bybit_ws st /\
  kline_streams (bybit_callback json_dumps message st) = kline_streams st /\
  orderbook_streams (bybit_callback json_dumps message st) = orderbook_streams st.
Proof.
  split; [|split].
  - unfold websocket_endpoint.
    destruct (disconnect_trace c (receive_loop texts (connect c st))) as [_ ->].
    destruct (receive_loop_queue texts (connect c st)) as [-> _].
    unfold connect. simpl. by destruct (active_bybit_ws st).
  - unfold websocket_endpoint.
    destruct (disconnect_trace c (receive_loop texts (connect c st))) as [-> _].
    destruct (receive_loop_queue texts (connect c st)) as [_ ->].
    unfold connect. simpl. by destruct (active_bybit_ws st).
  - unfold bybit_callback. by destruct (normalize json_dumps message).
Qed.

Lemma step_registers st ev c :
  c ∈ clients (step json_dumps st ev) -> c ∈ clients st \/ ev = Connect c.
Proof.
  destruct ev as [message|ok|c'|c' data|c']; simpl.
  - unfold bybit_callback. destruct (normalize json_dumps message); by left.
  - intros Hin. left.
    unfold broadcast_tick in Hin.
    destruct (message_queue st) as [|message rest]; [done|].
    case_bool_decide; [|done]. by apply dispatch_clients in Hin as [Hin _].
  - unfold connect. simpl.
    destruct (active_bybit_ws st); simpl;
      intros [Hin|Hin]%elem_of_union; eauto;
      apply elem_of_singleton in Hin; subst; eauto.
  - unfold receive. destruct (on_text data st) as [st'|e] eqn:E.
    + destruct (on_text_inv _ _ _ E) as [->|(h & symbol & _ & ->)]; by left.
    + intros Hin. left. revert Hin. unfold disconnect. simpl.
      destruct (active_bybit_ws st); simpl; [case_bool_decide; simpl|];
        set_solver.
  - intros Hin. left. revert Hin. unfold disconnect. simpl.
    destruct (active_bybit_ws st); simpl; [case_bool_decide; simpl|];
      set_solver.
Qed.

(** X16: whoever is in the registry after a run was there at its
    start or connected during it; and a client whose handler has just
    ended is not in the registry. *)
Theorem registry_holds_connected_clients_only evs st c :
  (c ∈ clients (run json_dumps evs st) ->
   c ∈ clients st \/ Connect c ∈ evs) /\
  c ∉ clients (run json_dumps (evs ++ [Disconnect c]) st).
Proof.
  split.
  - revert st. induction evs as [|ev evs IH]; intros st Hin; [by left|].
    rewrite run_cons in Hin.
    destruct (IH _ Hin) as [Hst|Hev]; [|right; by apply list_elem_of_further].
    destruct (step_registers st ev c Hst) as [? | ->]; [by left|].
    right. apply list_elem_of_here.
  - unfold run. rewrite foldl_app. simpl. unfold disconnect. simpl.
    destruct (active_bybit_ws _); simpl; [case_bool_decide; simpl|];
      set_solver.
Qed.

(** X17: when the application shuts down after any run, no kline
    subscription and no order-book stream is left open; the registry
    and the queue are not cleared and the global keeps the closed
    upstream object. *)
Theorem lifespan_closes_the_upstream evs :
  kline_streams (lifespan json_dumps evs) = ∅ /\
  orderbook_streams (lifespan json_dumps evs) = [] /\
  clients (lifespan json_dumps evs) = clients (run json_dumps evs initial) /\
  message_queue (lifespan json_dumps evs)
  = message_queue (run json_dumps evs initial) /\
  active_bybit_ws (lifespan json_dumps evs)
  = active_bybit_ws (run json_dumps evs initial).
Proof.
  unfold lifespan, lifespan_shutdown.
  pose proof (run_accounted json_dumps evs initial initial_accounted) as Hacc.
  pose proof (reachable_orderbooks evs) as Hob.
  unfold accounted in Hacc.
  destruct (active_bybit_ws (run json_dumps evs initial)) as [h|] eqn:Ha; simpl.
  - rewrite Hacc, Ha. simpl. repeat split; [set_solver|].
    apply filter_other_handle, Forall_forall. intros hs Hin.
    specialize (Hob hs Hin). congruence.
  - rewrite Hacc, Ha. repeat split; try done.
    destruct (orderbook_streams (run json_dumps evs initial)) as [|hs l] eqn:E;
      [done|].
    assert (Hin : hs ∈ orderbook_streams (run json_dumps evs initial))
      by (rewrite E; apply list_elem_of_here).
    specialize (Hob hs Hin). congruence.
Qed.

(** ** The callback, beyond one payload *)

Lemma well_formed_converts m :
  malformed m = false -> exists c, convert_message m = Ok c.
Proof.
  unfold malformed, numeric_fields, existsb.
  rewrite !bad_field_raises. unfold is_missing, convert_message.
  destruct (float_field m "close"); simpl; [|done].
  destruct (float_field m "high"); simpl; [|done].
  destruct (float_field m "low"); simpl; [|done].
  destruct (float_field m "open"); simpl; [|done].
  destruct (float_field m "timestamp"); simpl; [|done].
  destruct (float_field m "start"); simpl; [|done].
  destruct (float_field m "end"); simpl; [|done].
  destruct (getitem m "confirm"); simpl; [by eauto|done].
Qed.

Lemma for_each_total {A B : Type} (body : A -> result B) xs :
  Forall (fun x => exists y, body x = Ok y) xs ->
  exists ys, for_each body xs = Ok ys.
Proof.
  induction 1 as [|x xs [y Hy] _ [ys IH]]; simpl; [by eauto|].
  exists (y :: ys). by rewrite Hy; simpl; rewrite IH.
Qed.

Lemma forallb_false {A : Type} (p : A -> bool) l :
  forallb p l = false -> Exists (fun x => p x = false) l.
Proof.
  induction l as [|x l IH]; simpl; [done|].
  destruct (p x) eqn:Hx; simpl; [|by left]. intros Hl. right. by apply IH.
Qed.

(** X18: the callback appends a batch exactly for the payloads it
    accepts, those whose [data] can be iterated and holds no malformed
    record; for every other payload it logs one error and appends
    nothing. *)
Theorem callback_appends_iff_accepted message st :
  if accepts message then
    exists serialized,
      bybit_callback json_dumps message st = queue_append serialized st
  else
    exists e,
      bybit_callback json_dumps message st = emit (LogCallbackError e) st.
Proof.
  unfold accepts, bybit_callback, normalize.
  destruct (getitem message "data") as [data|e]; simpl; [|by eauto].
  destruct (py_iter data) as [items|e]; simpl; [|by eauto].
  destruct (forallb _ items) eqn:Hall.
  - destruct (for_each_total convert_message items) as [cs ->]; [|by eauto].
    apply Forall_forall. intros m Hin. apply well_formed_converts.
    rewrite forallb_forall in Hall. apply list_elem_of_In in Hin.
    specialize (Hall m Hin). by destruct (malformed m).
  - destruct (for_each_Exists convert_message items) as [e ->]; [|by eauto].
    eapply Exists_impl; [exact (forallb_false _ _ Hall)|].
    intros m Hm. apply malformed_raises. simpl in Hm.
    by destruct (malformed m).
Qed.

(** X19: a candle depends on the eight fields the callback reads and
    on nothing else of the record. *)
Theorem candle_ignores_other_fields m m' :
  (forall key, key ∈ source_keys -> getitem m key = getitem m' key) ->
  convert_message m = convert_message m'.
Proof.
  intros Hsame. unfold convert_message, float_field.
  rewrite !Hsame; [done|..]; unfold source_keys;
    repeat first [apply list_elem_of_here | apply list_elem_of_further].
Qed.

(** X20: the exception that is logged is the one of the first record
    that cannot be converted; the records after it are not looked at. *)
Theorem first_bad_record_is_reported message good ks bad e rest st :
  getitem message "data" = Ok (PList (good ++ bad :: rest)) ->
  Forall2 reads_as good ks ->
  convert_message bad = Raise e ->
  bybit_callback json_dumps message st = emit (LogCallbackError e) st.
Proof.
  intros Hd Hgood Hbad. unfold bybit_callback, normalize. rewrite Hd. simpl.
  assert (Hloop : for_each convert_message (good ++ bad :: rest) = Raise e).
  { clear Hd. induction Hgood as [|m k good ks Hmk _ IH]; simpl.
    - by rewrite Hbad.
    - rewrite (convert_message_reads m k Hmk). simpl. by rewrite IH. }
  by rewrite Hloop.
Qed.

(** X21: with an empty queue and a registry that is not empty, a
    well-formed payload followed by one iteration of the broadcast
    loop is written, as one serialized batch, to every registered
    client, and the queue is empty again. *)
Theorem payload_reaches_every_client message data ks ok st :
  message_queue st = [] ->
  clients st ≠ ∅ ->
  getitem message "data" = Ok (PList data) ->
  Forall2 reads_as data ks ->
  message_queue (run json_dumps [Callback message; Tick ok] st) = [] /\
  sends (since st (run json_dumps [Callback message; Tick ok] st))
  = map (fun c => (c, json_dumps (PList (map candle ks)), ok c))
      (elements (clients st)).
Proof.
  intros Hq Hc Hd Hks. simpl. unfold bybit_callback.
  rewrite (normalize_well_formed json_dumps message data ks Hd Hks).
  set (batch := json_dumps (PList (map candle ks))).
  assert (Hq1 : message_queue (queue_append batch st) = batch :: [])
    by (simpl; by rewrite Hq).
  destruct (tick_dispatch ok (queue_append batch st) batch [] Hq1 Hc)
    as (Hq' & Ht & _).
  split; [done|].
  assert (Hsince : since st (broadcast_tick ok (queue_append batch st))
                   = [Append batch; Popleft batch]
                     ++ concat (map (send_effects ok batch) (elements (clients st)))).
  { apply since_app. rewrite Ht. simpl. by rewrite <- app_assoc. }
  rewrite Hsince, sends_app. simpl. apply dispatch_sends.
Qed.

End ServiceFacts.

(** ** The history endpoint, beyond the good case *)

Section HistoryMore.
Context `{PyFloat}.

Lemma convert_in_place_stops good rs bad e rest :
  Forall2 row_reads_as good rs ->
  convert_candlestick bad = Raise e ->
  forall front,
    convert_in_place
      (seq (length front) (length (good ++ bad :: rest)))
      (PList (front ++ good ++ bad :: rest))
    = Raise e.
Proof.
  intros Hgood Hbad.
  induction Hgood as [|data r good rs Hr _ IH]; intros front.
  - cbn [app length seq convert_in_place getindex].
    rewrite list_lookup_middle by reflexivity. cbn [mbind result_bind].
    by rewrite Hbad.
  - cbn [app length seq convert_in_place getindex].
    rewrite list_lookup_middle by reflexivity. cbn [mbind result_bind].
    rewrite (convert_candlestick_reads data r Hr).
    cbn [mbind result_bind setindex].
    rewrite bool_decide_eq_true_2 by (rewrite length_app; simpl; lia).
    cbn [mbind result_bind].
    replace (<[length front := history_entry r]>
               (front ++ data :: good ++ bad :: rest))
      with ((front ++ [history_entry r]) ++ good ++ bad :: rest).
    + replace (S (length front)) with (length (front ++ [history_entry r]))
        by (rewrite length_app; simpl; lia).
      apply IH.
    + rewrite <- app_assoc. simpl. symmetry.
      rewrite insert_app_r_alt by lia.
      by rewrite Nat.sub_diag.
Qed.

(** X22: one row that cannot be converted fails the whole request
    with the exception of the first such row: the endpoint returns no
    partial list. *)
Theorem first_bad_row_fails_the_request
  (get_kline : kline_params -> result pyval)
  (category symbol interval : string) (limit : option Z)
  (end_ : option string) (params : kline_params)
  (response listing : pyval) (good : list pyval) (rs : list row)
  (bad : pyval) (e : exn) (rest : list pyval) :
  build_params category symbol interval limit end_ = Ok params ->
  get_kline params = Ok response ->
  getitem response "result" = Ok listing ->
  getitem listing "list" = Ok (PList (good ++ bad :: rest)) ->
  Forall2 row_reads_as good rs ->
  convert_candlestick bad = Raise e ->
  read_root get_kline category symbol interval limit end_ = Raise e.
Proof.
  intros Hp Hget Hres Hlist Hgood Hbad.
  unfold read_root. rewrite Hp. cbn [mbind result_bind].
  rewrite Hget. cbn [mbind result_bind].
  rewrite Hres. cbn [mbind result_bind].
  rewrite Hlist. cbn [mbind result_bind py_len].
  pose proof (convert_in_place_stops good rs bad e rest Hgood Hbad []) as Hloop.
  cbn [length app] in Hloop. by rewrite Hloop.
Qed.

(** X23: a row with fewer than five entries, all of them numeric,
    raises [IndexError]. *)
Theorem short_row_is_an_index_error (entries : list pyval) :
  Forall (fun v => exists f, py_float v = Ok f) entries ->
  (length entries < 5)%nat ->
  convert_candlestick (PList entries) = Raise IndexError.
Proof.
  intros Hnum Hlen. unfold convert_candlestick, float_at.
  do 5 (destruct entries as [|? entries];
        [reflexivity|];
        apply Forall_cons in Hnum as [[? Hv] Hnum];
        cbn [getindex lookup list_lookup mbind result_bind];
        rewrite Hv; clear Hv; cbn [mbind result_bind]).
  simpl in Hlen. lia.
Qed.

(** X24: an [end] that is not empty and is no numeral fails the
    request with [ValueError] whatever the venue would answer: the
    venue is not asked. *)
Theorem unreadable_end_is_a_value_error
  (get_kline : kline_params -> result pyval)
  (category symbol interval : string) (limit : option Z) (s : string) :
  s <> EmptyString ->
  float_of_string s = None ->
  read_root get_kline category symbol interval limit (Some s)
  = Raise ValueError.
Proof.
  intros Hs Hf. unfold read_root, build_params.
  destruct s as [|a s]; [done|]. cbn [py_float]. by rewrite Hf.
Qed.

(** X25: an upstream row is read through its first five entries only:
    what follows them (volume, turnover) never reaches the answer. *)
Theorem row_is_read_through_five_entries (entries : list pyval) :
  convert_candlestick (PList entries)
  = convert_candlestick (PList (take 5 entries)).
Proof.
  unfold convert_candlestick, float_at, getindex.
  by rewrite !lookup_take_lt by lia.
Qed.

(** X26: the request carries [category], [symbol] and [interval] as
    they came and the limit with its default; it carries no [end]
    exactly when [end] was omitted or empty. *)
Theorem request_forwards_its_arguments
  (category symbol interval : string) (limit : option Z)
  (end_ : option string) (params : kline_params) :
  build_params category symbol interval limit end_ = Ok params ->
  kp_category params = category /\
  kp_symbol params = symbol /\
  kp_interval params = interval /\
  kp_limit params = limit_or_default limit /\
  (kp_end params = None <-> end_ = None \/ end_ = Some EmptyString).
Proof.
  unfold build_params. destruct end_ as [[|a s]|].
  - intros [= <-]. simpl. repeat split; eauto.
  - destruct (py_float (PStr (String a s))) as [seconds|]; [|done].
    cbn [mbind result_bind]. intros [= <-]. simpl.
    repeat split; [done|]. by intros [|].
  - intros [= <-]. simpl. repeat split; eauto.
Qed.

End HistoryMore.

(** * Worked examples *)

(** with nobody registered a tick leaves the batches queued *)
Example tick_without_clients :
  broadcast_tick (fun _ => true) (queue_append "b1" initial)
  = queue_append "b1" initial.
Proof. reflexivity. Qed.

(** a tick at [busy]: [b1] leaves the queue and goes to clients 1 and 2 *)
Lemma tick_pops_one_batch_witness :
  message_queue busy = "b1" :: ["b2"] /\
  message_queue (broadcast_tick client_1_fails busy) = ["b2"] /\
  popped (since busy (broadcast_tick client_1_fails busy)) = ["b1"] /\
  sends (since busy (broadcast_tick client_1_fails busy))
  = map (fun c => (c, "b1", client_1_fails c)) (elements (clients busy)) /\
  NoDup (elements (clients busy)) /\
  (forall c, c ∈ elements (clients busy) <-> c ∈ clients busy).
Proof.
  split; [reflexivity|].
  exact (tick_pops_one_batch_for_all_clients client_1_fails busy "b1" ["b2"] eq_refl).
Defined.

(** the same tick: client 1, whose write raises, is pruned; client 2 is served *)
Lemma failed_write_witness :
  message_queue busy = "b1" :: ["b2"] /\
  1%nat ∈ clients busy /\
  client_1_fails 1%nat = false /\
  (1%nat ∉ clients (broadcast_tick client_1_fails busy)) /\
  (forall b, b ∈ clients busy ->
     (b, "b1", client_1_fails b)
     ∈ sends (since busy (broadcast_tick client_1_fails busy))) /\
  (forall b, b ∈ clients busy -> client_1_fails b = true ->
     b ∈ clients (broadcast_tick client_1_fails busy)).
Proof.
  assert (Hin : 1%nat ∈ clients busy) by (apply elem_of_union_l, elem_of_singleton; reflexivity).
  split; [reflexivity|]. split; [exact Hin|]. split; [reflexivity|].
  exact (failed_write_is_isolated client_1_fails busy "b1" ["b2"] 1%nat
           eq_refl Hin eq_refl).
Defined.

Example tick_record_converted :
  convert_message tick_record
  = Ok (PDict [("close", PFloat 16677%float); ("high", PFloat 16677%float);
               ("low", PFloat 16608%float); ("open", PFloat 16649.5%float);
               ("time", PFloat 1672335608%float);
               ("start", PFloat 1672335600%float);
               ("end", PFloat 1672335659.999%float);
               ("confirm", PBool false)]).
Proof. reflexivity. Qed.

(** a tick of two records is appended as one batch of two candles *)
Lemma normalizer_converts_witness :
  getitem tick_message "data" = Ok (PList [tick_record; tick_record]) /\
  Forall2 reads_as [tick_record; tick_record] [tick_parsed; tick_parsed] /\
  let batch := map candle [tick_parsed; tick_parsed] in
  let st' := bybit_callback Render.dumps tick_message busy in
  message_queue st' = message_queue busy ++ [Render.dumps (PList batch)] /\
  trace st' = trace busy ++ [Append (Render.dumps (PList batch))] /\
  length batch = length [tick_record; tick_record] /\
  (forall i m, [tick_record; tick_record] !! i = Some m ->
     exists k, reads_as m k /\ batch !! i = Some (candle k)).
Proof.
  assert (Hr : reads_as tick_record tick_parsed)
    by (repeat split; reflexivity).
  assert (Hks : Forall2 reads_as [tick_record; tick_record]
                  [tick_parsed; tick_parsed])
    by (repeat constructor; exact Hr).
  split; [reflexivity|]. split; [exact Hks|].
  exact (normalizer_converts_each_record Render.dumps tick_message
           [tick_record; tick_record] [tick_parsed; tick_parsed] busy
           eq_refl Hks).
Defined.

(** a tick whose second record lacks its fields is dropped whole *)
Lemma malformed_record_witness :
  getitem broken_message "data"
  = Ok (PList [tick_record;
               PDict [("open", PStr "16649.5"); ("high", PStr "n/a")]]) /\
  Exists (fun m => malformed m = true)
    [tick_record; PDict [("open", PStr "16649.5"); ("high", PStr "n/a")]] /\
  let st' := bybit_callback Render.dumps broken_message busy in
  message_queue st' = message_queue busy /\
  (exists e, st' = emit (LogCallbackError e) busy) /\
  appended (since busy st') = [] /\
  (forall later,
     message_queue (bybit_callback Render.dumps later st')
     = message_queue (bybit_callback Render.dumps later busy)).
Proof.
  assert (Hbad : Exists (fun m => malformed m = true)
                   [tick_record;
                    PDict [("open", PStr "16649.5"); ("high", PStr "n/a")]])
    by (apply Exists_cons_tl, Exists_cons_hd; reflexivity).
  split; [reflexivity|]. split; [exact Hbad|].
  exact (malformed_record_drops_the_batch Render.dumps broken_message _ busy
           eq_refl Hbad).
Defined.

(** the times of the converted tick are in order, as the venue's were *)
Example tick_candle_is_ordered :
  PrimFloat.leb 1672335600%float 1672335608%float = true /\
  PrimFloat.leb 1672335600%float 1672335659.999%float = true.
Proof. vm_compute. split; reflexivity. Qed.

(** one batch, one client: the client receives the batch in the next
    iteration and the queue is empty afterwards *)
Example one_batch_one_client :
  let st := queue_append "batch" (connect 1%nat initial) in
  message_queue (broadcast_messages [fun _ => true] st) = [] /\
  sends (since st (broadcast_messages [fun _ => true] st))
  = [(1%nat, "batch", true)].
Proof. vm_compute. split; reflexivity. Qed.

Example broken_message_logged :
  bybit_callback Render.dumps broken_message busy
  = emit (LogCallbackError (KeyError "close")) busy.
Proof. reflexivity. Qed.

(** the subscription over [two_visits] *)
Lemma subscription_follows_registry_witness :
  Forall (fun ev => is_lifecycle ev = true) two_visits /\
  let st := run Render.dumps two_visits initial in
  (clients st = ∅ -> active_bybit_ws st = None /\ kline_streams st = ∅) /\
  (forall c, clients st = ∅ ->
     clients (connect c st) = {[c]} /\
     exists h, active_bybit_ws (connect c st) = Some h /\
               kline_streams (connect c st) = {[h]}) /\
  (forall c, clients st = {[c]} ->
     clients (disconnect c st) = ∅ /\
     active_bybit_ws (disconnect c st) = None /\
     kline_streams (disconnect c st) = ∅).
Proof.
  assert (Hevs : Forall (fun ev => is_lifecycle ev = true) two_visits)
    by (repeat constructor).
  split; [exact Hevs|].
  exact (subscription_follows_registry Render.dumps two_visits Hevs).
Defined.

Example two_visits_states :
  active_bybit_ws (run Render.dumps [Connect 1%nat] initial) = Some 0%nat /\
  active_bybit_ws (run Render.dumps [Connect 1%nat; Connect 2%nat] initial) = Some 0%nat /\
  active_bybit_ws (run Render.dumps [Connect 1%nat; Connect 2%nat; Disconnect 1%nat] initial)
  = Some 0%nat /\
  run Render.dumps two_visits initial = mkState None [] ∅ ∅ [] 1%nat [].
Proof. vm_compute. repeat split. Qed.

(** a write failure empties the registry: the subscription stays open
    until the handler of the pruned client ends *)
Example pruned_registry_keeps_subscription :
  let st := run Render.dumps
              [Connect 1%nat; Callback tick_message; Tick client_1_fails] initial in
  clients st = ∅ /\ active_bybit_ws st = Some 0%nat /\
  active_bybit_ws (disconnect 1%nat st) = None.
Proof. vm_compute. repeat split. Qed.

(** the [subscribe:] command opens an order-book stream on the live
    connection; any other text changes nothing *)
Example subscribe_command :
  orderbook_streams
    (run Render.dumps [Connect 1%nat; Receive 1%nat "subscribe:BTCUSDT";
                       Receive 1%nat "hello"] initial)
  = [(0%nat, "BTCUSDT")] /\
  websocket_endpoint 1%nat ["subscribe:BTCUSDT"; "hello"] initial
  = mkState None [] ∅ ∅ [] 1%nat [].
Proof. vm_compute. split; reflexivity. Qed.

(** the subscriptions after [session] *)
Lemma at_most_one_kline_subscription_witness :
  let st := run Render.dumps session initial in
  (size (kline_streams st) <= 1)%nat /\
  kline_streams st = live_of (active_bybit_ws st) /\
  (forall c h, active_bybit_ws st = Some h ->
     active_bybit_ws (connect c st) = Some h /\
     kline_streams (connect c st) = kline_streams st /\
     next_handle (connect c st) = next_handle st).
Proof. exact (at_most_one_kline_subscription Render.dumps session). Defined.

Example session_state :
  let st := run Render.dumps session initial in
  active_bybit_ws st = Some 1%nat /\ kline_streams st = {[1%nat]} /\
  clients st = {[3%nat]} /\ message_queue st = [] /\
  popped (trace st) = appended (trace st) /\ length (popped (trace st)) = 2%nat.
Proof. vm_compute. repeat split. Qed.

(** a history request with [end] and without [limit] *)
Lemma history_witness :
  (float_of_string "1670619720" = Some 1670619720%float /\
   is_Some (Some 1670619720%float)) /\
  let params :=
    mkParams "linear" "KAITOUSDT" "1" 200
      (Some (fmul (fsub 1670619720%float (float_of_Z 10800)) (float_of_Z 1000))) in
  venue params
  = Ok (PDict [("retCode", PInt 0); ("retMsg", PStr "OK");
               ("result", PDict [("symbol", PStr "KAITOUSDT");
                                 ("category", PStr "linear");
                                 ("list", PList venue_rows)])]) /\
  Forall2 row_reads_as venue_rows venue_parsed /\
  read_root venue "linear" "KAITOUSDT" "1" None (Some "1670619720")
  = Ok (PList (reverse (map history_entry venue_parsed))) /\
  build_params "linear" "KAITOUSDT" "1" None (Some "1670619720") = Ok params /\
  (@None Z = None -> kp_limit params = 200).
Proof.
  assert (Hend : float_of_string "1670619720" = Some 1670619720%float /\
                 is_Some (Some 1670619720%float))
    by (split; [reflexivity | eexists; reflexivity]).
  assert (Hrows : Forall2 row_reads_as venue_rows venue_parsed)
    by (repeat constructor; reflexivity).
  split; [exact Hend|]. split; [reflexivity|]. split; [exact Hrows|].
  exact (history_is_converted_and_reversed venue "linear" "KAITOUSDT" "1"
           None (Some "1670619720") (Some 1670619720%float) _ _
           venue_rows venue_parsed Hend eq_refl eq_refl eq_refl Hrows).
Defined.

Example history_answer :
  read_root venue "linear" "KAITOUSDT" "1" (Some 0) (Some "1670619720")
  = Ok (PList
          [PDict [("time", PFloat 1670619600%float); ("open", PFloat 17071%float);
                  ("high", PFloat 17073%float); ("low", PFloat 17027%float);
                  ("close", PFloat 17055.5%float)];
           PDict [("time", PFloat 1670619660%float); ("open", PFloat 17055.5%float);
                  ("high", PFloat 17073%float); ("low", PFloat 17027%float);
                  ("close", PFloat 17071.5%float)]]) /\
  build_params "linear" "KAITOUSDT" "1" (Some 0) (Some "1670619720")
  = Ok (mkParams "linear" "KAITOUSDT" "1" 200 (Some 1670608920000%float)).
Proof. split; reflexivity. Qed.

(** an empty [end] is falsy: the request then carries no [end] *)
Example empty_end_is_omitted :
  build_params (H := binary64) "linear" "KAITOUSDT" "1" (Some 50) (Some EmptyString)
  = Ok (mkParams "linear" "KAITOUSDT" "1" 50 None) /\
  build_params (H := binary64) "linear" "KAITOUSDT" "1" (Some 50) (Some "soon")
  = Raise ValueError.
Proof. split; reflexivity. Qed.


(** the limit that reaches the venue *)
Example zero_limit_asks_for_200 :
  read_root limit_probe "linear" "KAITOUSDT" "1" (Some 0) None
  = Raise (KeyError "200") /\
  read_root limit_probe "linear" "KAITOUSDT" "1" None None
  = Raise (KeyError "200") /\
  read_root limit_probe "linear" "KAITOUSDT" "1" (Some 50) None
  = Raise (KeyError "50").
Proof. repeat split; reflexivity. Qed.

Example disordered_record_converted :
  convert_message disordered_record = Ok disordered_candle.
Proof. reflexivity. Qed.

(** The order of the times is not a property of every candle: the
    normalizer turns [disordered_record] into a candle with
    [start = 10920], [time = 10860] and [end = 10800]. *)
Lemma candle_times_can_be_disordered :
  ~ (forall (m c : @pyval binary64) (start time end_ : PrimFloat.float),
       convert_message m = Ok c ->
       getitem c "start" = Ok (PFloat start) ->
       getitem c "time" = Ok (PFloat time) ->
       getitem c "end" = Ok (PFloat end_) ->
       PrimFloat.leb start time = true /\ PrimFloat.leb start end_ = true).
Proof.
  intros Hall.
  destruct (Hall disordered_record disordered_candle
              10920%float 10860%float 10800%float
              disordered_record_converted eq_refl eq_refl eq_refl) as [Hle _].
  vm_compute in Hle. discriminate Hle.
Qed.

(** on the rationals the conversion is monotone *)
Lemma exact_conversion_monotone : @conversion_monotone exact.
Proof.
  intros x y Hxy. unfold ms_to_local. simpl in *.
  apply Qle_bool_iff. apply Qle_bool_iff in Hxy.
  apply Qplus_le_compat; [|apply Qle_refl].
  unfold Qdiv. apply Qmult_le_compat_r; [exact Hxy|]. discriminate.
Qed.

(** in exact arithmetic an ordered record gives an ordered candle *)
Example ordered_candle_in_exact_arithmetic :
  exists (c : @pyval exact) (start time end_ : @float exact),
    convert_message ordered_record = Ok c /\
    getitem c "start" = Ok (PFloat start) /\
    getitem c "time" = Ok (PFloat time) /\
    getitem c "end" = Ok (PFloat end_) /\
    fle start time = true /\
    fle start end_ = true.
Proof.
  assert (Hr : reads_as ordered_record ordered_parsed)
    by (repeat split; reflexivity).
  exact (monotone_conversion_keeps_order (H := exact) ordered_record
           ordered_parsed exact_conversion_monotone Hr eq_refl eq_refl).
Qed.

(** the venue's tick is in order, and so is its candle *)
Lemma candle_times_keep_raw_order_witness :
  reads_as tick_record tick_parsed /\
  PrimFloat.leb (k_start tick_parsed) (k_timestamp tick_parsed) = true /\
  PrimFloat.leb (k_start tick_parsed) (k_end tick_parsed) = true /\
  exists (c : @pyval binary64) (start time end_ : PrimFloat.float),
    convert_message tick_record = Ok c /\
    getitem c "start" = Ok (PFloat start) /\
    getitem c "time" = Ok (PFloat time) /\
    getitem c "end" = Ok (PFloat end_) /\
    PrimFloat.leb start time = true /\
    PrimFloat.leb start end_ = true.
Proof.
  assert (Hr : reads_as tick_record tick_parsed)
    by (repeat split; reflexivity).
  split; [exact Hr|]. split; [reflexivity|]. split; [reflexivity|].
  exact (candle_times_keep_raw_order Binary64.of_string eq_refl
           tick_record tick_parsed Hr eq_refl eq_refl).
Defined.

(** * Further worked examples *)

Lemma busy_is_not_empty : clients busy ≠ ∅.
Proof. unfold busy. simpl. set_solver. Qed.

Lemma ready_is_not_empty : clients ready ≠ ∅.
Proof. unfold ready. simpl. set_solver. Qed.

Lemma session_registry : clients (run Render.dumps session initial) = {[3%nat]}.
Proof. vm_compute. reflexivity. Qed.

(** two iterations at [busy]: both batches reach clients 1 and 2 *)
Lemma broadcast_drains_witness :
  clients busy ≠ ∅ /\
  Forall (fun ok : client -> bool => forall c, c ∈ clients busy -> ok c = true)
    [all_return; all_return] /\
  message_queue (broadcast_messages [all_return; all_return] busy)
  = drop (length [all_return; all_return]) (message_queue busy) /\
  clients (broadcast_messages [all_return; all_return] busy) = clients busy /\
  forall c, c ∈ clients busy ->
    received c (since busy (broadcast_messages [all_return; all_return] busy))
    = take (length [all_return; all_return]) (message_queue busy).
Proof.
  assert (Hoks : Forall (fun ok : client -> bool =>
                           forall c, c ∈ clients busy -> ok c = true)
                   [all_return; all_return])
    by (repeat constructor).
  split; [exact busy_is_not_empty|]. split; [exact Hoks|].
  exact (broadcast_drains_in_order [all_return; all_return] busy
           busy_is_not_empty Hoks).
Defined.

Example busy_drained :
  message_queue (broadcast_messages [all_return; all_return] busy) = [] /\
  received 2%nat (since busy (broadcast_messages [all_return; all_return] busy))
  = ["b1"; "b2"].
Proof. vm_compute. split; reflexivity. Qed.

(** an iteration at [busy] in which both writes raise *)
Lemma failed_tick_witness :
  message_queue busy = "b1" :: ["b2"] /\
  clients busy ≠ ∅ /\
  (forall c, c ∈ clients busy -> all_raise c = false) /\
  active_bybit_ws busy = Some 0%nat /\
  clients (broadcast_tick all_raise busy) = ∅ /\
  message_queue (broadcast_tick all_raise busy) = ["b2"] /\
  active_bybit_ws (broadcast_tick all_raise busy) = Some 0%nat /\
  kline_streams (broadcast_tick all_raise busy) = kline_streams busy /\
  forall c,
    active_bybit_ws (disconnect c (broadcast_tick all_raise busy)) = None /\
    kline_streams (disconnect c (broadcast_tick all_raise busy))
    = kline_streams busy ∖ {[0%nat]}.
Proof.
  split; [reflexivity|]. split; [exact busy_is_not_empty|].
  split; [reflexivity|]. split; [reflexivity|].
  exact (failed_tick_leaves_subscription_open all_raise busy "b1" ["b2"] 0%nat
           eq_refl busy_is_not_empty (fun _ _ => eq_refl) eq_refl).
Defined.

Lemma symbol_is_plain : ":"%char ∉ list_ascii_of_string "BTCUSDT".
Proof.
  simpl. rewrite !not_elem_of_cons.
  repeat split; try discriminate. apply not_elem_of_nil.
Qed.

(** the command with and without a second colon, and another text *)
Lemma subscribe_reads_the_symbol_witness :
  active_bybit_ws busy = Some 0%nat /\
  (":"%char ∉ list_ascii_of_string "BTCUSDT") /\
  String.prefix "subscribe:" "hello" = false /\
  on_text ("subscribe:" ++ "BTCUSDT") busy
  = Ok (orderbook_stream 0%nat "BTCUSDT" busy) /\
  on_text ("subscribe:" ++ "BTCUSDT" ++ String ":" "perp") busy
  = Ok (orderbook_stream 0%nat "BTCUSDT" busy) /\
  on_text "hello" busy = Ok busy.
Proof.
  split; [reflexivity|]. split; [exact symbol_is_plain|]. split; [reflexivity|].
  exact (subscribe_reads_the_symbol_up_to_a_colon "BTCUSDT" "perp" "hello"
           busy 0%nat eq_refl symbol_is_plain eq_refl).
Defined.

(** with no symbol at all the command asks for the stream of the
    empty symbol *)
Example subscribe_without_symbol :
  on_text "subscribe:" busy = Ok (orderbook_stream 0%nat EmptyString busy).
Proof. reflexivity. Qed.

Lemma newcomer : 3%nat ∉ clients busy.
Proof. unfold busy. simpl. set_solver. Qed.

(** client 3 visits [busy] and chats *)
Lemma quiet_visit_witness :
  (3%nat ∉ clients busy) /\
  clients busy ≠ ∅ /\
  is_Some (active_bybit_ws busy) /\
  Forall (fun data => String.prefix "subscribe:" data = false)
    ["hello"; "unsubscribe:BTCUSDT"] /\
  websocket_endpoint 3%nat ["hello"; "unsubscribe:BTCUSDT"] busy = busy.
Proof.
  assert (Hopen : is_Some (active_bybit_ws busy)) by (eexists; reflexivity).
  assert (Hq : Forall (fun data => String.prefix "subscribe:" data = false)
                 ["hello"; "unsubscribe:BTCUSDT"])
    by (repeat constructor).
  split; [exact newcomer|]. split; [exact busy_is_not_empty|].
  split; [exact Hopen|]. split; [exact Hq|].
  exact (quiet_visit_leaves_no_mark 3%nat ["hello"; "unsubscribe:BTCUSDT"] busy
           newcomer busy_is_not_empty Hopen Hq).
Defined.

(** client 1 visits the service at its start and subscribes twice *)
Lemma lone_visit_witness :
  clients initial = ∅ /\
  active_bybit_ws initial = None /\
  kline_streams initial = ∅ /\
  orderbook_streams initial = [] /\
  websocket_endpoint 1%nat ["subscribe:BTCUSDT"; "subscribe:ETHUSDT"] initial
  = mkState None (message_queue initial) ∅ ∅ [] (S (next_handle initial))
      (trace initial).
Proof.
  do 4 (split; [reflexivity|]).
  exact (lone_visit_opens_and_closes 1%nat
           ["subscribe:BTCUSDT"; "subscribe:ETHUSDT"] initial
           eq_refl eq_refl eq_refl eq_refl).
Defined.

Lemma session_is_not_empty : clients (run Render.dumps session initial) ≠ ∅.
Proof. rewrite session_registry. set_solver. Qed.

Lemma session_has_client_3 : 3%nat ∈ clients (run Render.dumps session initial).
Proof. rewrite session_registry. set_solver. Qed.

(** after [session], with its failed write, client 3 has a feed *)
Lemma registered_clients_witness :
  clients (run Render.dumps session initial) ≠ ∅ /\
  exists h,
    active_bybit_ws (run Render.dumps session initial) = Some h /\
    kline_streams (run Render.dumps session initial) = {[h]}.
Proof.
  split; [exact session_is_not_empty|].
  exact (registered_clients_have_a_feed Render.dumps session
           session_is_not_empty).
Defined.

(** after [session], client 3 subscribes *)
Lemma subscribe_of_a_registered_client_witness :
  3%nat ∈ clients (run Render.dumps session initial) /\
  String.prefix "subscribe:" "subscribe:ETHUSDT" = true /\
  exists h symbol,
    active_bybit_ws (run Render.dumps session initial) = Some h /\
    split_on ":"%char "subscribe:ETHUSDT" !! 1%nat = Some symbol /\
    receive 3%nat "subscribe:ETHUSDT" (run Render.dumps session initial)
    = orderbook_stream h symbol (run Render.dumps session initial).
Proof.
  split; [exact session_has_client_3|]. split; [reflexivity|].
  exact (subscribe_of_a_registered_client_succeeds Render.dumps session
           3%nat "subscribe:ETHUSDT" session_has_client_3 eq_refl).
Defined.

(** the order-book streams after [session] *)
Lemma orderbook_streams_witness :
  (forall h symbol,
     (h, symbol) ∈ orderbook_streams (run Render.dumps session initial) ->
     active_bybit_ws (run Render.dumps session initial) = Some h) /\
  (active_bybit_ws (run Render.dumps session initial) = None ->
   orderbook_streams (run Render.dumps session initial) = []).
Proof. exact (orderbook_streams_end_with_the_subscription Render.dumps session). Defined.

(** the stream of client 2 went with the first subscription *)
Example session_orderbooks :
  orderbook_streams
    (run Render.dumps [Connect 1%nat; Connect 2%nat;
                       Receive 2%nat "subscribe:BTCUSDT"] initial)
  = [(0%nat, "BTCUSDT")] /\
  orderbook_streams (run Render.dumps session initial) = [].
Proof. vm_compute. split; reflexivity. Qed.

(** client 2 after [session], and after one more disconnect *)
Lemma registry_witness :
  (2%nat ∈ clients (run Render.dumps session initial) ->
   2%nat ∈ clients initial \/ Connect 2%nat ∈ session) /\
  2%nat ∉ clients (run Render.dumps (session ++ [Disconnect 2%nat]) initial).
Proof.
  exact (registry_holds_connected_clients_only Render.dumps session initial 2%nat).
Defined.

(** shutting down in the middle of a session *)
Example shutdown_mid_session :
  lifespan Render.dumps [Connect 1%nat; Receive 1%nat "subscribe:BTCUSDT";
                         Callback tick_message]
  = mkState (Some 0%nat) [Render.dumps (PList [candle tick_parsed; candle tick_parsed])]
      {[1%nat]} ∅ [] 1%nat
      [Append (Render.dumps (PList [candle tick_parsed; candle tick_parsed]))].
Proof. vm_compute. reflexivity. Qed.

Lemma bare_record_agrees :
  forall key, key ∈ source_keys ->
              getitem tick_record key = getitem bare_record key.
Proof.
  intros key Hin. unfold source_keys in Hin.
  repeat (apply elem_of_cons in Hin as [->|Hin]; [reflexivity|]).
  by apply elem_of_nil in Hin.
Qed.

(** the venue's record and the record stripped to its eight fields *)
Lemma candle_ignores_other_fields_witness :
  (forall key, key ∈ source_keys ->
               getitem tick_record key = getitem bare_record key) /\
  convert_message tick_record = convert_message bare_record.
Proof.
  split; [exact bare_record_agrees|].
  exact (candle_ignores_other_fields tick_record bare_record bare_record_agrees).
Defined.

(** [broken_message]: the second record has no [close] *)
Lemma first_bad_record_witness :
  getitem broken_message "data" = Ok (PList ([tick_record] ++ stub_record :: [])) /\
  Forall2 reads_as [tick_record] [tick_parsed] /\
  convert_message stub_record = Raise (KeyError "close") /\
  bybit_callback Render.dumps broken_message busy
  = emit (LogCallbackError (KeyError "close")) busy.
Proof.
  assert (Hgood : Forall2 reads_as [tick_record] [tick_parsed])
    by (repeat constructor; reflexivity).
  split; [reflexivity|]. split; [exact Hgood|]. split; [reflexivity|].
  exact (first_bad_record_is_reported Render.dumps broken_message
           [tick_record] [tick_parsed] stub_record (KeyError "close") [] busy
           eq_refl Hgood eq_refl).
Defined.

(** a tick of two records at [ready], then an iteration in which the
    write to client 1 raises *)
Lemma payload_reaches_every_client_witness :
  message_queue ready = [] /\
  clients ready ≠ ∅ /\
  getitem tick_message "data" = Ok (PList [tick_record; tick_record]) /\
  Forall2 reads_as [tick_record; tick_record] [tick_parsed; tick_parsed] /\
  message_queue
    (run Render.dumps [Callback tick_message; Tick client_1_fails] ready) = [] /\
  sends (since ready
           (run Render.dumps [Callback tick_message; Tick client_1_fails] ready))
  = map (fun c => (c, Render.dumps (PList (map candle [tick_parsed; tick_parsed])),
                   client_1_fails c))
      (elements (clients ready)).
Proof.
  assert (Hks : Forall2 reads_as [tick_record; tick_record]
                  [tick_parsed; tick_parsed])
    by (repeat constructor; reflexivity).
  split; [reflexivity|]. split; [exact ready_is_not_empty|].
  split; [reflexivity|]. split; [exact Hks|].
  exact (payload_reaches_every_client Render.dumps tick_message
           [tick_record; tick_record] [tick_parsed; tick_parsed]
           client_1_fails ready eq_refl ready_is_not_empty eq_refl Hks).
Defined.

(** the second row of [careless_venue] stops the request *)
Lemma first_bad_row_witness :
  build_params "linear" "KAITOUSDT" "1" None None
  = Ok (mkParams "linear" "KAITOUSDT" "1" 200 None) /\
  careless_venue (mkParams "linear" "KAITOUSDT" "1" 200 None)
  = Ok (PDict [("retCode", PInt 0);
               ("result", PDict [("list", PList [good_row; short_row; good_row])])]) /\
  Forall2 row_reads_as [good_row] [good_row_parsed] /\
  convert_candlestick short_row = Raise IndexError /\
  read_root careless_venue "linear" "KAITOUSDT" "1" None None = Raise IndexError.
Proof.
  assert (Hgood : Forall2 row_reads_as [good_row] [good_row_parsed])
    by (repeat constructor; reflexivity).
  split; [reflexivity|]. split; [reflexivity|]. split; [exact Hgood|].
  split; [reflexivity|].
  exact (first_bad_row_fails_the_request careless_venue "linear" "KAITOUSDT" "1"
           None None (mkParams "linear" "KAITOUSDT" "1" 200 None) _ _
           [good_row] [good_row_parsed] short_row IndexError [good_row]
           eq_refl eq_refl eq_refl eq_refl Hgood eq_refl).
Defined.

(** a row of two entries *)
Lemma short_row_witness :
  Forall (fun v : @pyval binary64 => exists f, py_float v = Ok f)
    [PStr "1670608800000"; PStr "17071"] /\
  (length [@PStr binary64 "1670608800000"; PStr "17071"] < 5)%nat /\
  convert_candlestick (PList [PStr "1670608800000"; PStr "17071"])
  = Raise IndexError.
Proof.
  assert (Hnum : Forall (fun v : @pyval binary64 => exists f, py_float v = Ok f)
                   [PStr "1670608800000"; PStr "17071"])
    by (repeat constructor; eexists; reflexivity).
  assert (Hlen : (length [@PStr binary64 "1670608800000"; PStr "17071"] < 5)%nat)
    by (simpl; lia).
  split; [exact Hnum|]. split; [exact Hlen|].
  exact (short_row_is_an_index_error _ Hnum Hlen).
Defined.

(** [end=soon] *)
Lemma unreadable_end_witness :
  "soon" <> EmptyString /\
  float_of_string "soon" = None /\
  read_root venue "linear" "KAITOUSDT" "1" None (Some "soon") = Raise ValueError.
Proof.
  assert (Hs : "soon" <> EmptyString) by discriminate.
  split; [exact Hs|]. split; [reflexivity|].
  exact (unreadable_end_is_a_value_error venue "linear" "KAITOUSDT" "1" None
           "soon" Hs eq_refl).
Defined.

(** a request with [limit=50] and an empty [end] *)
Lemma request_forwards_witness :
  build_params "linear" "KAITOUSDT" "1" (Some 50) (Some EmptyString)
  = Ok (mkParams (H := binary64) "linear" "KAITOUSDT" "1" 50 None) /\
  kp_category (mkParams (H := binary64) "linear" "KAITOUSDT" "1" 50 None) = "linear" /\
  kp_symbol (mkParams (H := binary64) "linear" "KAITOUSDT" "1" 50 None) = "KAITOUSDT" /\
  kp_interval (mkParams (H := binary64) "linear" "KAITOUSDT" "1" 50 None) = "1" /\
  kp_limit (mkParams (H := binary64) "linear" "KAITOUSDT" "1" 50 None)
  = limit_or_default (Some 50) /\
  (kp_end (mkParams (H := binary64) "linear" "KAITOUSDT" "1" 50 None) = None
   <-> Some EmptyString = @None string \/ Some EmptyString = Some EmptyString).
Proof.
  split; [reflexivity|].
  exact (request_forwards_its_arguments "linear" "KAITOUSDT" "1" (Some 50)
           (Some EmptyString) (mkParams "linear" "KAITOUSDT" "1" 50 None) eq_refl).
Defined.

(** client 7 connects to a service with a backlog of two batches *)
Lemma backlog_witness :
  clients (queue_append "b2" (queue_append "b1" initial)) = ∅ /\
  message_queue (queue_append "b2" (queue_append "b1" initial)) = "b1" :: ["b2"] /\
  message_queue
    (broadcast_tick all_return
       (connect 7%nat (queue_append "b2" (queue_append "b1" initial))))
  = ["b2"] /\
  sends (since (queue_append "b2" (queue_append "b1" initial))
           (broadcast_tick all_return
              (connect 7%nat (queue_append "b2" (queue_append "b1" initial)))))
  = [(7%nat, "b1", all_return 7%nat)].
Proof.
  split; [reflexivity|]. split; [reflexivity|].
  exact (backlog_goes_to_the_first_client all_return 7%nat
           (queue_append "b2" (queue_append "b1" initial)) "b1" ["b2"]
           eq_refl eq_refl).
Defined.

(** two ticks and three iterations with nobody registered *)
Lemma batches_pile_up_witness :
  clients initial = ∅ /\
  Forall (fun ev => is_feed_event ev = true)
    [Callback tick_message; Tick all_return; Callback broken_message;
     Callback tick_message; Tick all_return; Tick all_return] /\
  popped (since initial
            (run Render.dumps
               [Callback tick_message; Tick all_return; Callback broken_message;
                Callback tick_message; Tick all_return; Tick all_return] initial))
  = [] /\
  message_queue
    (run Render.dumps
       [Callback tick_message; Tick all_return; Callback broken_message;
        Callback tick_message; Tick all_return; Tick all_return] initial)
  = message_queue initial
    ++ appended (since initial
                   (run Render.dumps
                      [Callback tick_message; Tick all_return;
                       Callback broken_message; Callback tick_message;
                       Tick all_return; Tick all_return] initial)) /\
  clients
    (run Render.dumps
       [Callback tick_message; Tick all_return; Callback broken_message;
        Callback tick_message; Tick all_return; Tick all_return] initial) = ∅.
Proof.
  assert (Hevs : Forall (fun ev => is_feed_event ev = true)
                   [Callback tick_message; Tick all_return;
                    Callback broken_message; Callback tick_message;
                    Tick all_return; Tick all_return])
    by (repeat constructor).
  split; [reflexivity|]. split; [exact Hevs|].
  exact (batches_pile_up_without_clients Render.dumps _ initial eq_refl Hevs).
Defined.

Example two_batches_piled_up :
  length (message_queue
            (run Render.dumps
               [Callback tick_message; Tick all_return; Callback broken_message;
                Callback tick_message; Tick all_return; Tick all_return] initial))
  = 2%nat.
Proof. vm_compute. reflexivity. Qed.
